(** * payment/rabbitmq.py: the AMQP publisher of the payment service

    A shallow embedding of [Publisher] (constructor, [_connect], [publish],
    [close]) together with a small model of what it drives: the process
    environment ([os.getenv]), the blocking broker client ([pika]), the
    logger and [json.dumps].

    Conventions.
    - A Python [str] is the Rocq [string] of its UTF-8 bytes; [None] is
      [None] of [option].
    - The process environment is a finite map from names to values.
    - The object is mutated in place by its methods; here the object and
      the outside world (broker client state, call log) form one state
      that the methods thread through, and a raised exception keeps the
      assignments made before it.
    - The broker client is modelled by what its documentation promises:
      calls on a closed connection or channel raise, a call that reaches
      the broker may fail, and the broker may close a channel or drop a
      connection between two calls. *)

From Stdlib Require Import ZArith String List Bool Lia.
From stdpp Require Import base option list gmap strings pretty.

Open Scope string_scope.
Open Scope list_scope.

(** ** Exceptions and results

    [JsonError] stands for the exception [json.dumps] raises on a value
    it cannot serialize, whichever it is ([TypeError] for a value without
    an encoding, [ValueError] for a circular structure, [RecursionError]
    for one nested too deep). *)

Inductive exn : Type :=
  | RuntimeError (msg : string)
  | TypeError
  | JsonError
  | AttributeError
  | AMQPConnectionError
  | ConnectionWrongStateError
  | ChannelWrongStateError
  | AMQPError.

Inductive result (A : Type) : Type :=
  | Ok (a : A)
  | Raise (e : exn).
Arguments Ok {A} a.
Arguments Raise {A} e.

(** ** The process environment *)

Module Os.

(** [os.getenv(key)]: the value, or [None] when the name is not set. *)
Definition getenv (environ : gmap string string) (key : string)
  : option string :=
  environ !! key.

(** [os.getenv(key, default)]: the value, or [default] when the name is
    not set.  A name set to the empty string yields the empty string. *)
Definition getenv_default (environ : gmap string string)
    (key default : string) : string :=
  match environ !! key with
  | Some v => v
  | None => default
  end.

End Os.

(** Truth value of an optional string: [None] and [""] are false. *)
Definition truthy (v : option string) : bool :=
  match v with
  | None => false
  | Some s => negb (String.eqb s "")
  end.

(** [sep.join(l)] *)
Fixpoint join (sep : string) (l : list string) : string :=
  match l with
  | [] => ""
  | [x] => x
  | x :: rest => x +:+ sep +:+ join sep rest
  end.

(** ** The broker client library: data *)

Module Pika.

Record PlainCredentials : Type := {
  username : string;
  password : string
}.

Record ConnectionParameters : Type := {
  host : string;
  virtual_host : string;
  credentials : PlainCredentials;
  heartbeat : Z;
  blocked_connection_timeout : Z
}.

(** Message properties; the publisher only sets [headers], a mapping
    from string keys to arbitrary values. *)
Record BasicProperties (HVal : Type) : Type := {
  headers : gmap string HVal
}.
Arguments headers {HVal} _.

End Pika.

(** ** The outside world

    Connections and channels are handles (indices) into tables kept by the
    broker client.  A blocking connection is observed by the publisher
    between calls only, where it is either open or closed, so [is_closed]
    is the negation of [is_open].  A channel is usable while its own flag
    is up and its connection is open.

    [faults] is the oracle of broker failures: every library call that
    talks to the broker consumes one entry, and [true] makes that call
    raise.  An exhausted oracle means no further failure.  A failing call
    changes no flag by itself: when the failure goes with the loss of the
    connection or of the channel, that loss is the separate change of
    flag below, following the call.

    The flags are the client's view.  The client learns of a channel
    closed or a connection dropped by the broker while it does I/O, that
    is during a call, and the flag is changed from then on.

    [trace] records, in order, every call the publisher makes to the
    broker client and every line it logs. *)

Definition Logger : Type := nat.
Definition conn_handle : Type := nat.
Definition chan_handle : Type := nat.

Inductive Event (HVal : Type) : Type :=
  | EvBlockingConnection (params : Pika.ConnectionParameters)
  | EvChannel (conn : conn_handle)
  | EvExchangeDeclare (ch : chan_handle) (exchange exchange_type : string)
      (durable : bool)
  | EvBasicPublish (ch : chan_handle) (exchange routing_key : string)
      (body : list Byte.byte) (properties : Pika.BasicProperties HVal)
  | EvClose (conn : conn_handle)
  | EvLogInfo (logger : Logger) (line : string).
Arguments EvBlockingConnection {HVal} params.
Arguments EvChannel {HVal} conn.
Arguments EvExchangeDeclare {HVal} ch exchange exchange_type durable.
Arguments EvBasicPublish {HVal} ch exchange routing_key body properties.
Arguments EvClose {HVal} conn.
Arguments EvLogInfo {HVal} logger line.

Record World (HVal : Type) : Type := mkWorld {
  environ : gmap string string;
  conns : list bool;
  chans : list (conn_handle * bool);
  faults : list bool;
  trace : list (Event HVal)
}.
Arguments mkWorld {HVal} _ _ _ _ _.
Arguments environ {HVal} _.
Arguments conns {HVal} _.
Arguments chans {HVal} _.
Arguments faults {HVal} _.
Arguments trace {HVal} _.

(** ** State and exception monad *)

Definition M (S A : Type) : Type := S -> result A * S.

Definition ret {S A : Type} (a : A) : M S A := fun s => (Ok a, s).
Definition raise {S A : Type} (e : exn) : M S A := fun s => (Raise e, s).
Definition bind {S A B : Type} (m : M S A) (k : A -> M S B) : M S B :=
  fun s =>
    match m s with
    | (Ok a, s') => k a s'
    | (Raise e, s') => (Raise e, s')
    end.
Definition get {S : Type} : M S S := fun s => (Ok s, s).
Definition gets {S A : Type} (f : S -> A) : M S A := fun s => (Ok (f s), s).
Definition modify {S : Type} (f : S -> S) : M S unit := fun s => (Ok tt, f s).

Declare Scope py_scope.
Delimit Scope py_scope with py.
Notation "'do' x <- c ; k" := (bind c (fun x => k))
  (at level 10, x name, c at level 100, k at level 200) : py_scope.
Notation "'exec' c ; k" := (bind c (fun _ => k))
  (at level 10, c at level 100, k at level 200) : py_scope.
Open Scope py_scope.

(** ** World updates shared by the library models *)

Section WorldOps.
Context {HVal : Type}.

Definition set_conns (f : list bool -> list bool) (w : World HVal)
  : World HVal :=
  mkWorld (environ w) (f (conns w)) (chans w) (faults w) (trace w).

Definition set_chans
    (f : list (conn_handle * bool) -> list (conn_handle * bool))
    (w : World HVal) : World HVal :=
  mkWorld (environ w) (conns w) (f (chans w)) (faults w) (trace w).

Definition record_event (e : Event HVal) (w : World HVal) : World HVal :=
  mkWorld (environ w) (conns w) (chans w) (faults w) (trace w ++ [e]).

(** Consume one entry of the failure oracle. *)
Definition next_fault : M (World HVal) bool :=
  fun w =>
    match faults w with
    | [] => (Ok false, w)
    | b :: rest =>
        (Ok b, mkWorld (environ w) (conns w) (chans w) rest (trace w))
    end.

(** What the client may have learnt from the broker by the time a call
    has ended: that a channel was closed, or that a connection was
    dropped.  The flag of the client changes accordingly. *)
Definition broker_closes_channel (ch : chan_handle) (w : World HVal)
  : World HVal :=
  match chans w !! ch with
  | Some (c, _) => set_chans (fun t => <[ch := (c, false)]> t) w
  | None => w
  end.

Definition broker_drops_connection (c : conn_handle) (w : World HVal)
  : World HVal :=
  set_conns (fun t => <[c := false]> t) w.

End WorldOps.

(** ** [pika.BlockingConnection] *)

Module BlockingConnection.
Section Ops.
Context {HVal : Type}.

(** [conn.is_open] *)
Definition is_open (w : World HVal) (c : conn_handle) : bool :=
  match conns w !! c with
  | Some b => b
  | None => false
  end.

(** [conn.is_closed] *)
Definition is_closed (w : World HVal) (c : conn_handle) : bool :=
  negb (is_open w c).

(** [pika.BlockingConnection(params)]: a new open connection, or
    [AMQPConnectionError] when the broker cannot be reached. *)
Definition new (params : Pika.ConnectionParameters)
  : M (World HVal) conn_handle :=
  exec modify (record_event (EvBlockingConnection params));
  do failed <- next_fault;
  if failed : bool then raise AMQPConnectionError
  else
    do c <- gets (fun w => length (conns w));
    exec modify (set_conns (fun t => t ++ [true]));
    ret c.

(** [conn.channel()]: a new open channel on the connection. *)
Definition channel (c : conn_handle) : M (World HVal) chan_handle :=
  exec modify (record_event (EvChannel c));
  do usable <- gets (fun w => is_open w c);
  if usable : bool then
    do failed <- next_fault;
    if failed : bool then raise AMQPError
    else
      do ch <- gets (fun w => length (chans w));
      exec modify (set_chans (fun t => t ++ [(c, true)]));
      ret ch
  else raise ConnectionWrongStateError.

(** [conn.close()]: closes the connection, and with it its channels. *)
Definition close (c : conn_handle) : M (World HVal) unit :=
  exec modify (record_event (EvClose c));
  do usable <- gets (fun w => is_open w c);
  if usable : bool then
    do failed <- next_fault;
    if failed : bool then raise AMQPError
    else modify (set_conns (fun t => <[c := false]> t))
  else raise ConnectionWrongStateError.

End Ops.
End BlockingConnection.

(** ** [pika] blocking channels *)

Module BlockingChannel.
Section Ops.
Context {HVal : Type}.

(** [channel.is_open] *)
Definition is_open (w : World HVal) (ch : chan_handle) : bool :=
  match chans w !! ch with
  | Some (c, up) => up && BlockingConnection.is_open w c
  | None => false
  end.

(** [channel.exchange_declare(exchange, exchange_type, durable)] *)
Definition exchange_declare (ch : chan_handle)
    (exchange exchange_type : string) (durable : bool)
  : M (World HVal) unit :=
  exec modify
    (record_event (EvExchangeDeclare ch exchange exchange_type durable));
  do usable <- gets (fun w => is_open w ch);
  if usable : bool then
    do failed <- next_fault;
    if failed : bool then raise AMQPError else ret tt
  else raise ChannelWrongStateError.

(** [channel.basic_publish(exchange, routing_key, body, properties)]:
    raises [ChannelWrongStateError] on a channel that is not open. *)
Definition basic_publish (ch : chan_handle)
    (exchange routing_key : string) (body : list Byte.byte)
    (properties : Pika.BasicProperties HVal) : M (World HVal) unit :=
  exec modify
    (record_event (EvBasicPublish ch exchange routing_key body properties));
  do usable <- gets (fun w => is_open w ch);
  if usable : bool then
    do failed <- next_fault;
    if failed : bool then raise AMQPError else ret tt
  else raise ChannelWrongStateError.

End Ops.
End BlockingChannel.

(** ** [logging] *)

Module Logging.
Section Ops.
Context {HVal : Type}.

(** [logger.info(line)] *)
Definition info (logger : Logger) (line : string) : M (World HVal) unit :=
  modify (record_event (EvLogInfo logger line)).

End Ops.
End Logging.

(** ** [json] and [str.encode]

    A [str] is held as the Rocq string of its UTF-8 bytes, so that
    [s.encode()] is the byte list of [s].  [json.dumps] is the library's:
    the publisher is verified for any serializer, [None] standing for the
    exception it raises on a value it cannot serialize, which [publish]
    lets through as [JsonError]. *)

Definition encode (s : string) : list Byte.byte := list_byte_of_string s.

(** ** The publisher object *)

Record Publisher : Type := mkPublisher {
  _logger : Logger;
  HOST : string;
  USER : string;
  PASS : string;
  VIRTUAL_HOST : string;
  EXCHANGE : string;
  TYPE : string;
  ROUTING_KEY : string;
  _params : Pika.ConnectionParameters;
  _conn : option conn_handle;
  _channel : option chan_handle
}.

Definition set__conn (c : option conn_handle) (p : Publisher) : Publisher :=
  mkPublisher (_logger p) (HOST p) (USER p) (PASS p) (VIRTUAL_HOST p)
    (EXCHANGE p) (TYPE p) (ROUTING_KEY p) (_params p) c (_channel p).

Definition set__channel (ch : option chan_handle) (p : Publisher)
  : Publisher :=
  mkPublisher (_logger p) (HOST p) (USER p) (PASS p) (VIRTUAL_HOST p)
    (EXCHANGE p) (TYPE p) (ROUTING_KEY p) (_params p) (_conn p) ch.

(** The names the constructor insists on, in the order it checks them. *)
Definition required_vars : list string :=
  ["AMQP_HOST"; "AMQP_USER"; "AMQP_PASS"].

Definition missing_message (missing : list string) : string :=
  "Missing RabbitMQ env vars: " +:+ join ", " missing.

Section PublisherCode.
Context {Msg HVal : Type}.
Variable json_dumps : Msg -> option string.

(** The object under execution together with the world it acts on. *)
Record St : Type := mkSt {
  self : Publisher;
  world : World HVal
}.

Definition lift {A : Type} (m : M (World HVal) A) : M St A :=
  fun s =>
    match m (world s) with
    | (r, w') => (r, mkSt (self s) w')
    end.

Definition assign (f : Publisher -> Publisher) : M St unit :=
  modify (fun s => mkSt (f (self s)) (world s)).

(** Calling a method on an attribute that holds [None] raises
    [AttributeError]. *)
Definition deref {S : Type} (o : option nat) : M S nat :=
  match o with
  | Some h => ret h
  | None => raise AttributeError
  end.

(** [Publisher.__init__(self, logger)] *)
Definition __init__ (logger : Logger) : M (World HVal) Publisher :=
  do env <- gets environ;
  let HOST := Os.getenv env "AMQP_HOST" in
  let USER := Os.getenv env "AMQP_USER" in
  let PASS := Os.getenv env "AMQP_PASS" in
  let VIRTUAL_HOST := Os.getenv_default env "AMQP_VHOST" "/" in
  let EXCHANGE := Os.getenv_default env "AMQP_EXCHANGE" "robot-shop" in
  let TYPE := Os.getenv_default env "AMQP_EXCHANGE_TYPE" "direct" in
  let ROUTING_KEY := Os.getenv_default env "AMQP_ROUTING_KEY" "orders" in
  let missing :=
    map fst
      (List.filter (fun kv => negb (truthy (snd kv)))
         [("AMQP_HOST", HOST); ("AMQP_USER", USER); ("AMQP_PASS", PASS)]) in
  match missing with
  | _ :: _ => raise (RuntimeError (missing_message missing))
  | [] =>
      match HOST, USER, PASS with
      | Some h, Some u, Some p =>
          ret (mkPublisher logger h u p VIRTUAL_HOST EXCHANGE TYPE
                 ROUTING_KEY
                 {| Pika.host := h;
                    Pika.virtual_host := VIRTUAL_HOST;
                    Pika.credentials :=
                      {| Pika.username := u; Pika.password := p |};
                    Pika.heartbeat := 30;
                    Pika.blocked_connection_timeout := 30 |}
                 None None)
      | _, _, _ =>
          (* [ConnectionParameters] rejects a host that is not a [str];
             the check above leaves no way here *)
          raise TypeError
      end
  end.

(** [not self._conn or self._conn.is_closed] *)
Definition no_open_conn (s : St) : bool :=
  match _conn (self s) with
  | None => true
  | Some c => BlockingConnection.is_closed (world s) c
  end.

(** [Publisher._connect(self)] *)
Definition _connect : M St unit :=
  do stale <- gets no_open_conn;
  if stale : bool then
    do params <- gets (fun s => _params (self s));
    do c <- lift (BlockingConnection.new params);
    exec assign (set__conn (Some c));
    do conn <- gets (fun s => _conn (self s));
    do conn <- deref conn;
    do ch <- lift (BlockingConnection.channel conn);
    exec assign (set__channel (Some ch));
    do chan <- gets (fun s => _channel (self s));
    do chan <- deref chan;
    do p <- gets self;
    exec lift (BlockingChannel.exchange_declare chan (EXCHANGE p) (TYPE p)
                 true);
    lift (Logging.info (_logger p)
            ("connected to broker " +:+ HOST p +:+ " vhost="
             +:+ VIRTUAL_HOST p))
  else ret tt.

(** [headers or {}] *)
Definition headers_or_empty (headers : option (gmap string HVal))
  : gmap string HVal :=
  match headers with
  | None => ∅
  | Some h => if decide (h = ∅) then ∅ else h
  end.

(** [Publisher.publish(self, msg, headers=None)] *)
Definition publish (msg : Msg) (headers : option (gmap string HVal))
  : M St unit :=
  do stale <- gets no_open_conn;
  exec (if stale : bool then _connect else ret tt);
  do chan <- gets (fun s => _channel (self s));
  do chan <- deref chan;
  do p <- gets self;
  do body <- match json_dumps msg with
             | Some text => ret (encode text)
             | None => raise JsonError
             end;
  exec lift (BlockingChannel.basic_publish chan (EXCHANGE p)
               (ROUTING_KEY p) body
               {| Pika.headers := headers_or_empty headers |});
  lift (Logging.info (_logger p) "message sent to queue").

(** [Publisher.close(self)] *)
Definition close : M St unit :=
  do s <- get;
  match _conn (self s) with
  | Some c =>
      if BlockingConnection.is_open (world s) c
      then lift (BlockingConnection.close c)
      else ret tt
  | None => ret tt
  end.

End PublisherCode.

(** ** A serializer to run the publisher on

    [json.dumps] restricted to payloads that are a Python [int] (printed
    as its decimal numeral) or an object [json] has no encoding for. *)

Inductive payload : Type :=
  | PInt (z : Z)
  | PObject.

Definition payload_dumps (m : payload) : option string :=
  match m with
  | PInt z => Some (pretty z)
  | PObject => None
  end.

(** ** Reading the constructor

    What the claims call "absent" (the name is not in the environment) and
    what the constructor tests (the value is false: not set, or empty). *)

Definition absent (env : gmap string string) (k : string) : bool :=
  match env !! k with
  | None => true
  | Some _ => false
  end.

Definition absent_or_empty (env : gmap string string) (k : string) : bool :=
  match env !! k with
  | None => true
  | Some v => String.eqb v ""
  end.

Definition absent_vars (env : gmap string string) : list string :=
  List.filter (absent env) required_vars.

Definition missing_vars (env : gmap string string) : list string :=
  List.filter (absent_or_empty env) required_vars.

(** The object the constructor builds from an environment in which the
    three required names hold [h], [u] and [p]. *)
Definition built (logger : Logger) (env : gmap string string)
    (h u p : string) : Publisher :=
  let vhost := default "/" (env !! "AMQP_VHOST") in
  mkPublisher logger h u p vhost
    (default "robot-shop" (env !! "AMQP_EXCHANGE"))
    (default "direct" (env !! "AMQP_EXCHANGE_TYPE"))
    (default "orders" (env !! "AMQP_ROUTING_KEY"))
    {| Pika.host := h;
       Pika.virtual_host := vhost;
       Pika.credentials := {| Pika.username := u; Pika.password := p |};
       Pika.heartbeat := 30;
       Pika.blocked_connection_timeout := 30 |}
    None None.

Definition with_environ {HVal : Type} (env : gmap string string)
    (w : World HVal) : World HVal :=
  mkWorld env (conns w) (chans w) (faults w) (trace w).

(** ** Environments and worlds used as concrete inputs *)

Definition env_full : gmap string string :=
  {[ "AMQP_HOST" := "rabbitmq"; "AMQP_USER" := "guest";
     "AMQP_PASS" := "secret" ]}.

Definition env_custom : gmap string string :=
  {[ "AMQP_HOST" := "rabbitmq"; "AMQP_USER" := "guest";
     "AMQP_PASS" := "secret"; "AMQP_VHOST" := "shop";
     "AMQP_EXCHANGE" := "" ]}.

(** [AMQP_HOST] is not set, [AMQP_USER] is set to the empty string. *)
Definition env_user_empty : gmap string string :=
  {[ "AMQP_USER" := ""; "AMQP_PASS" := "secret" ]}.

(** All three required names are set, [AMQP_HOST] to the empty string. *)
Definition env_host_empty : gmap string string :=
  {[ "AMQP_HOST" := ""; "AMQP_USER" := "guest"; "AMQP_PASS" := "secret" ]}.

(** A world with the given environment in which nothing has happened yet
    and the broker never fails. *)
Definition fresh_world (env : gmap string string) : World string :=
  mkWorld env [] [] [] [].

(** Each optional setting: the default when the name is not set, the
    value from the environment when it is. *)
Definition defaulted (env : gmap string string) (key dflt value : string)
  : Prop :=
  (env !! key = None -> value = dflt) /\
  (forall v, env !! key = Some v -> value = v).

(** ** Vocabulary of the claims about the methods *)

(** None of the next [n] calls to the broker fails. *)
Fixpoint no_faults (n : nat) (fs : list bool) : bool :=
  match n, fs with
  | O, _ => true
  | S _, [] => true
  | S n', f :: rest => negb f && no_faults n' rest
  end.

Definition calm {HVal : Type} (n : nat) (w : World HVal) : Prop :=
  no_faults n (faults w) = true.

Section Vocabulary.
Context {HVal : Type}.

(** A connection exists and is open. *)
Definition connected (s : @St HVal) : Prop :=
  exists c, _conn (self s) = Some c /\
            BlockingConnection.is_open (world s) c = true.

(** The stored channel is live: it exists, is open, and so is the
    connection it belongs to. *)
Definition channel_live (s : @St HVal) : Prop :=
  exists ch, _channel (self s) = Some ch /\
             BlockingChannel.is_open (world s) ch = true.

(** The connect sequence: open a connection, open a channel on it,
    declare the exchange, log. *)
Definition connect_events (p : Publisher) (c : conn_handle)
    (ch : chan_handle) : list (Event HVal) :=
  [ EvBlockingConnection (_params p);
    EvChannel c;
    EvExchangeDeclare ch (EXCHANGE p) (TYPE p) true;
    EvLogInfo (_logger p)
      ("connected to broker " +:+ HOST p +:+ " vhost=" +:+ VIRTUAL_HOST p) ].

(** Handing one message to the broker on channel [ch], then logging. *)
Definition publish_events (p : Publisher) (ch : chan_handle)
    (text : string) (headers : option (gmap string HVal))
  : list (Event HVal) :=
  [ EvBasicPublish ch (EXCHANGE p) (ROUTING_KEY p) (encode text)
      {| Pika.headers := default ∅ headers |};
    EvLogInfo (_logger p) "message sent to queue" ].

(** The state a successful connect sequence leaves behind. *)
Definition after_connect (s : @St HVal) : @St HVal :=
  let w := world s in
  let c := length (conns w) in
  let ch := length (chans w) in
  mkSt (set__channel (Some ch) (set__conn (Some c) (self s)))
    (mkWorld (environ w) (conns w ++ [true]) (chans w ++ [(c, true)])
       (drop 3 (faults w)) (trace w ++ connect_events (self s) c ch)).

(** The state a successful hand-over of [text] on channel [ch] leaves. *)
Definition after_publish (ch : chan_handle) (text : string)
    (headers : option (gmap string HVal)) (s : @St HVal) : @St HVal :=
  let w := world s in
  mkSt (self s)
    (mkWorld (environ w) (conns w) (chans w) (drop 1 (faults w))
       (trace w ++ publish_events (self s) ch text headers)).

(** Is this event the opening of a connection? *)
Definition is_connection_attempt (e : Event HVal) : bool :=
  match e with
  | EvBlockingConnection _ => true
  | _ => false
  end.

End Vocabulary.

Section PublishSteps.
Context {Msg HVal : Type}.
Variable json_dumps : Msg -> option string.

(** [publish] once its connection check is done: the statements from
    [self._channel.basic_publish(...)] on. *)
Definition hand_over (msg : Msg) (headers : option (gmap string HVal))
  : M (@St HVal) unit :=
  do chan <- gets (fun s => _channel (self s));
  do chan <- deref chan;
  do p <- gets self;
  do body <- match json_dumps msg with
             | Some text => ret (encode text)
             | None => raise JsonError
             end;
  exec lift (BlockingChannel.basic_publish chan (EXCHANGE p)
               (ROUTING_KEY p) body
               {| Pika.headers := headers_or_empty headers |});
  lift (Logging.info (_logger p) "message sent to queue").

End PublishSteps.

(** The settings of a publisher: the object with its connection state
    blanked.  Two objects with equal settings differ at most in [_conn]
    and [_channel]. *)
Definition settings (p : Publisher) : Publisher :=
  set__conn None (set__channel None p).

(** How many connections a stretch of the trace tried to open. *)
Definition connection_attempts {HVal : Type} (evs : list (Event HVal))
  : nat :=
  length (List.filter is_connection_attempt evs).

(** The state a successful [conn.close()] on connection [c] leaves. *)
Definition after_close {HVal : Type} (c : conn_handle) (s : @St HVal)
  : @St HVal :=
  let w := world s in
  mkSt (self s)
    (mkWorld (environ w) (<[c := false]> (conns w)) (chans w)
       (drop 1 (faults w)) (trace w ++ [EvClose c])).

(** Is this event a hand-over of a message to the broker? *)
Definition is_basic_publish {HVal : Type} (e : Event HVal) : bool :=
  match e with
  | EvBasicPublish _ _ _ _ _ => true
  | _ => false
  end.

(** Is this event one of the three calls of the connect sequence? *)
Definition is_connect_call {HVal : Type} (e : Event HVal) : bool :=
  match e with
  | EvBlockingConnection _ | EvChannel _ | EvExchangeDeclare _ _ _ _ => true
  | _ => false
  end.

(** ** Concrete runs *)

(** A publisher just constructed from [env_full], nothing opened yet. *)
Definition s_fresh : @St string :=
  mkSt (built 7 env_full "rabbitmq" "guest" "secret") (fresh_world env_full).

(** The same publisher after one message went out. *)
Definition s_published : @St string :=
  snd (publish payload_dumps (PInt 1) None s_fresh).

(** ... and with channel 0 then seen closed by the broker, the connection
    staying up. *)
Definition s_channel_closed : @St string :=
  mkSt (self s_published) (broker_closes_channel 0 (world s_published)).

(** ... or with connection 0 seen dropped by the broker instead. *)
Definition s_connection_lost : @St string :=
  mkSt (self s_published) (broker_drops_connection 0 (world s_published)).

(** ** Drivers: sequences of calls and of broker events *)

(** The same state under another process environment. *)
Definition st_with_environ {HVal : Type} (env : gmap string string)
    (s : @St HVal) : @St HVal :=
  mkSt (self s) (with_environ env (world s)).

(** What can happen to a publisher once it is constructed: its owner
    calls [publish] or [close], or the broker closes a channel or drops a
    connection.  Failures of broker calls come from the oracle of the
    world. *)
Inductive action (Msg HVal : Type) : Type :=
  | DoPublish (msg : Msg) (headers : option (gmap string HVal))
  | DoClose
  | BrokerClosesChannel (ch : chan_handle)
  | BrokerDropsConnection (c : conn_handle).
Arguments DoPublish {Msg HVal} msg headers.
Arguments DoClose {Msg HVal}.
Arguments BrokerClosesChannel {Msg HVal} ch.
Arguments BrokerDropsConnection {Msg HVal} c.

Section Drivers.
Context {Msg HVal : Type}.
Variable json_dumps : Msg -> option string.

(** One action, whatever its outcome: an exception raised by a method is
    caught by the caller, the state it left is kept. *)
Definition step (a : action Msg HVal) (s : @St HVal) : @St HVal :=
  match a with
  | DoPublish msg headers => snd (publish json_dumps msg headers s)
  | DoClose => snd (close s)
  | BrokerClosesChannel ch =>
      mkSt (self s) (broker_closes_channel ch (world s))
  | BrokerDropsConnection c =>
      mkSt (self s) (broker_drops_connection c (world s))
  end.

Definition run_actions (l : list (action Msg HVal)) (s : @St HVal)
  : @St HVal :=
  fold_left (fun st a => step a st) l s.

(** [for msg, headers in batch: publisher.publish(msg, headers)]: the
    first exception ends the loop. *)
Fixpoint publish_each (batch : list (Msg * option (gmap string HVal)))
  : M (@St HVal) unit :=
  match batch with
  | [] => ret tt
  | (msg, headers) :: rest =>
      exec publish json_dumps msg headers;
      publish_each rest
  end.

(** The hand-overs a batch amounts to on channel [ch]. *)
Definition batch_events (p : Publisher) (ch : chan_handle)
    (batch : list (Msg * option (gmap string HVal))) : list (Event HVal) :=
  flat_map
    (fun mh =>
       match json_dumps (fst mh) with
       | Some text => publish_events p ch text (snd mh)
       | None => []
       end)
    batch.

End Drivers.

(** Every open connection of the world is the one the publisher holds. *)
Definition no_stray_connection {HVal : Type} (s : @St HVal) : Prop :=
  forall c : conn_handle,
    BlockingConnection.is_open (world s) c = true ->
    _conn (self s) = Some c.

(** How many messages a stretch of the trace handed to the broker. *)
Definition hand_overs {HVal : Type} (evs : list (Event HVal)) : nat :=
  length (List.filter is_basic_publish evs).





(** The publisher after one message went out, facing a broker call that
    is about to fail. *)
Definition s_lossy : @St string :=
  mkSt (self s_published)
    (mkWorld (environ (world s_published)) (conns (world s_published))
       (chans (world s_published)) [true] (trace (world s_published))).



(** * Verification *)

Section Constructor.
Context {HVal : Type}.
Implicit Types (w : World HVal) (env : gmap string string).

Lemma getenv_default_eq env k d :
  Os.getenv_default env k d = default d (env !! k).
Proof. unfold Os.getenv_default. now destruct (env !! k). Qed.

Lemma empty_eqb (s : string) : String.eqb s "" = true <-> s = "".
Proof. apply String.eqb_eq. Qed.

(** The constructor, case by case on the three required values. *)
Lemma init_unfold logger w :
  __init__ logger w =
    match missing_vars (environ w) with
    | [] =>
        match environ w !! "AMQP_HOST", environ w !! "AMQP_USER",
              environ w !! "AMQP_PASS" with
        | Some h, Some u, Some p => (Ok (built logger (environ w) h u p), w)
        | _, _, _ => (Raise TypeError, w)
        end
    | m => (Raise (RuntimeError (missing_message m)), w)
    end.
Proof.
  unfold __init__, bind, gets, missing_vars, required_vars, built,
    absent_or_empty, truthy, Os.getenv.
  rewrite !getenv_default_eq. cbn [List.filter snd].
  destruct (environ w !! "AMQP_HOST") as [h|];
    destruct (environ w !! "AMQP_USER") as [u|];
    destruct (environ w !! "AMQP_PASS") as [p|];
    cbn [negb];
    repeat match goal with
           | |- context [String.eqb ?s ""] => destruct (String.eqb s "")
           end;
    reflexivity.
Qed.

Lemma in_missing_vars env k :
  k ∈ missing_vars env <->
  k ∈ required_vars /\ (env !! k = None \/ env !! k = Some "").
Proof.
  unfold missing_vars. rewrite list_elem_of_In, filter_In, <- list_elem_of_In.
  unfold absent_or_empty.
  destruct (env !! k) as [v|]; [rewrite empty_eqb|]; intuition congruence.
Qed.

Lemma in_absent_vars env k :
  k ∈ absent_vars env <-> k ∈ required_vars /\ env !! k = None.
Proof.
  unfold absent_vars. rewrite list_elem_of_In, filter_In, <- list_elem_of_In.
  unfold absent. destruct (env !! k); intuition congruence.
Qed.

Lemma missing_vars_nil env :
  missing_vars env = [] <->
  exists h u p,
    env !! "AMQP_HOST" = Some h /\ env !! "AMQP_USER" = Some u /\
    env !! "AMQP_PASS" = Some p /\ h <> "" /\ u <> "" /\ p <> "".
Proof.
  unfold missing_vars, required_vars, absent_or_empty. cbn [List.filter].
  destruct (env !! "AMQP_HOST") as [h|];
    destruct (env !! "AMQP_USER") as [u|];
    destruct (env !! "AMQP_PASS") as [p|];
    repeat match goal with
           | |- context [String.eqb ?s ""] =>
               let E := fresh "E" in
               destruct (String.eqb s "") eqn:E;
               [apply String.eqb_eq in E | apply String.eqb_neq in E]
           end;
    split; intros H;
    try discriminate;
    try (destruct H as (h' & u' & p' & ? & ? & ? & ? & ? & ?);
         simplify_eq; congruence).
  exists h, u, p. tauto.
Qed.

Lemma required_vars_NoDup : List.NoDup required_vars.
Proof.
  unfold required_vars.
  repeat constructor; cbn; intuition discriminate.
Qed.

Lemma missing_eq_absent env :
  (forall k : string, k ∈ required_vars -> env !! k <> Some "") ->
  missing_vars env = absent_vars env.
Proof.
  intros Hne. unfold missing_vars, absent_vars.
  apply filter_ext_in. intros k Hk. apply list_elem_of_In in Hk.
  specialize (Hne k Hk). unfold absent_or_empty, absent.
  destruct (env !! k) as [v|] eqn:E; [|reflexivity].
  apply String.eqb_neq. congruence.
Qed.

Lemma missing_vars_delete env k :
  env !! k = Some "" -> missing_vars (delete k env) = missing_vars env.
Proof.
  intros Hk. unfold missing_vars. apply filter_ext. intros k'.
  unfold absent_or_empty. destruct (decide (k = k')) as [<-|Hne].
  - now rewrite lookup_delete_eq, Hk.
  - now rewrite lookup_delete_ne.
Qed.

(** C1 (amended).  When any of the three required variables is not set or
    is set to the empty string, construction raises the configuration
    error, leaves the world untouched, and the message lists, after its
    fixed prefix and separated by ", ", exactly the required names that
    are not set or empty, each once and in the order AMQP_HOST, AMQP_USER,
    AMQP_PASS.  So every absent name is listed, and the list is exactly
    the absent names whenever no required variable is set to the empty
    string. *)
Theorem init_reports_missing (logger : Logger) (w : World HVal) :
  (exists k : string, k ∈ required_vars /\
                      (environ w !! k = None \/ environ w !! k = Some "")) ->
  exists names,
    names =
      List.filter
        (fun k => match environ w !! k with
                  | None => true
                  | Some v => String.eqb v ""
                  end)
        ["AMQP_HOST"; "AMQP_USER"; "AMQP_PASS"] /\
    __init__ logger w =
      (Raise (RuntimeError ("Missing RabbitMQ env vars: " +:+ join ", " names)),
       w) /\
    (forall k : string, k ∈ names <->
               k ∈ required_vars /\
               (environ w !! k = None \/ environ w !! k = Some "")) /\
    List.NoDup names /\
    (forall k : string, k ∈ absent_vars (environ w) -> k ∈ names) /\
    ((forall k : string, k ∈ required_vars -> environ w !! k <> Some "") ->
     names = absent_vars (environ w)).
Proof.
  intros (k & Hk & Hmiss). exists (missing_vars (environ w)).
  assert (Hin : k ∈ missing_vars (environ w)) by now apply in_missing_vars.
  split; [reflexivity|].
  split; [|split; [|split; [|split]]].
  - rewrite init_unfold.
    destruct (missing_vars (environ w)) as [|n ns]; [|reflexivity].
    now apply elem_of_nil in Hin.
  - intros k'. apply in_missing_vars.
  - unfold missing_vars. apply List.NoDup_filter, required_vars_NoDup.
  - intros k' Hk'. apply in_absent_vars in Hk'. apply in_missing_vars.
    tauto.
  - apply missing_eq_absent.
Qed.

(** C9.  A required variable set to the empty string is treated as an
    absent one: construction raises the configuration error, the variable
    is named in it, and the outcome is the one obtained with that variable
    removed from the environment. *)
Theorem init_empty_counts_as_missing (logger : Logger) (w : World HVal)
    (k : string) :
  k ∈ required_vars -> environ w !! k = Some "" ->
  exists names,
    __init__ logger w =
      (Raise (RuntimeError ("Missing RabbitMQ env vars: " +:+ join ", " names)),
       w) /\
    k ∈ names /\
    fst (__init__ logger (with_environ (delete k (environ w)) w)) =
      fst (__init__ logger w).
Proof.
  intros Hk Hempty. exists (missing_vars (environ w)).
  assert (Hin : k ∈ missing_vars (environ w))
    by (apply in_missing_vars; tauto).
  assert (Hrun : __init__ logger w =
                 (Raise (RuntimeError (missing_message
                                         (missing_vars (environ w)))), w)).
  { rewrite init_unfold.
    destruct (missing_vars (environ w)) as [|n ns]; [|reflexivity].
    now apply elem_of_nil in Hin. }
  split; [exact Hrun|]. split; [exact Hin|].
  rewrite Hrun, init_unfold. cbn [environ with_environ fst].
  rewrite (missing_vars_delete _ _ Hempty).
  destruct (missing_vars (environ w)) as [|n ns]; [|reflexivity].
  now apply elem_of_nil in Hin.
Qed.

(** C7.  On a successfully constructed publisher every optional setting
    holds its documented default when its variable is not set, and the
    value from the environment when it is set. *)
Theorem init_optional_defaults (logger : Logger) (w w' : World HVal)
    (pub : Publisher) :
  __init__ logger w = (Ok pub, w') ->
  defaulted (environ w) "AMQP_VHOST" "/" (VIRTUAL_HOST pub) /\
  defaulted (environ w) "AMQP_EXCHANGE" "robot-shop" (EXCHANGE pub) /\
  defaulted (environ w) "AMQP_EXCHANGE_TYPE" "direct" (TYPE pub) /\
  defaulted (environ w) "AMQP_ROUTING_KEY" "orders" (ROUTING_KEY pub) /\
  Pika.virtual_host (_params pub) = VIRTUAL_HOST pub.
Proof.
  rewrite init_unfold. intros Hrun.
  destruct (missing_vars (environ w)); [|discriminate].
  destruct (environ w !! "AMQP_HOST") as [h|]; [|discriminate].
  destruct (environ w !! "AMQP_USER") as [u|]; [|discriminate].
  destruct (environ w !! "AMQP_PASS") as [p|]; [|discriminate].
  injection Hrun as <- <-. unfold defaulted, built.
  cbn [VIRTUAL_HOST EXCHANGE TYPE ROUTING_KEY _params Pika.virtual_host].
  repeat split; intros; subst;
    repeat match goal with H : _ !! _ = _ |- _ => rewrite H end;
    reflexivity.
Qed.

End Constructor.

(** ** Running the library calls *)

Section Execution.
Context {Msg HVal : Type}.
Variable json_dumps : Msg -> option string.
Implicit Types (w : World HVal) (s : @St HVal).

Lemma bind_ok {S A B : Type} (m : M S A) (k : A -> M S B) (a : A)
    (st st' : S) :
  m st = (Ok a, st') -> bind m k st = k a st'.
Proof. unfold bind. intros H. now rewrite H. Qed.


Lemma lookup_fresh {A : Type} (l : list A) (x : A) :
  (l ++ [x]) !! length l = Some x.
Proof. rewrite lookup_app_r, Nat.sub_diag by lia. reflexivity. Qed.

Lemma headers_or_empty_default (headers : option (gmap string HVal)) :
  headers_or_empty headers = default ∅ headers.
Proof.
  unfold headers_or_empty. destruct headers as [h|]; [|reflexivity].
  now destruct (decide (h = ∅)) as [->|].
Qed.

(** Symbolic execution: unfold the methods, the library calls and the
    monad, and reduce; lookups in the tables are left for rewriting. *)
Ltac run :=
  cbv [_connect publish close no_open_conn
       BlockingConnection.new BlockingConnection.channel
       BlockingConnection.close BlockingConnection.is_open
       BlockingConnection.is_closed BlockingChannel.exchange_declare
       BlockingChannel.basic_publish BlockingChannel.is_open Logging.info
       bind gets get modify lift assign deref ret raise next_fault
       world self conns chans faults trace environ set_conns set_chans
       record_event _conn _channel _params _logger HOST USER PASS
       VIRTUAL_HOST EXCHANGE TYPE ROUTING_KEY set__conn set__channel
       fst snd negb andb].

(** A connection already open: [_connect] does nothing at all. *)
Lemma connect_noop s : no_open_conn s = false -> _connect s = (Ok tt, s).
Proof.
  intros H. unfold _connect, bind, gets. rewrite H. reflexivity.
Qed.

(** No open connection and a broker that answers: the whole sequence. *)
Lemma connect_run s :
  no_open_conn s = true -> calm 3 (world s) ->
  _connect s = (Ok tt, after_connect s).
Proof.
  intros Hstale Hcalm.
  unfold _connect, bind at 1, gets at 1. rewrite Hstale.
  unfold calm in Hcalm. unfold after_connect, connect_events.
  destruct s as [[lg h u pw vh ex ty rk params c0 ch0] [env cs chs fs tr]].
  cbn [world faults] in Hcalm. clear Hstale. run.
  destruct fs as [|[] [|[] [|[] fs]]]; cbn in Hcalm;
    try discriminate Hcalm;
    run; rewrite ?lookup_fresh; run;
    rewrite ?lookup_fresh; run;
    rewrite <- ?app_assoc; reflexivity.
Qed.

Lemma connected_iff s : connected s <-> no_open_conn s = false.
Proof.
  unfold connected, no_open_conn, BlockingConnection.is_closed.
  destruct (_conn (self s)) as [c|].
  - split.
    + intros (c' & [= <-] & ->). reflexivity.
    + intros H. exists c. split; [reflexivity|].
      now destruct (BlockingConnection.is_open (world s) c).
  - split; [intros (c' & [=] & _)|discriminate].
Qed.

Lemma not_connected_iff s : ~ connected s <-> no_open_conn s = true.
Proof.
  rewrite connected_iff. destruct (no_open_conn s); intuition congruence.
Qed.

(** If [_connect] had to connect and returned normally, the broker
    answered all three calls and the state is the expected one. *)
Lemma connect_ok_inv s s' :
  no_open_conn s = true -> _connect s = (Ok tt, s') ->
  calm 3 (world s) /\ s' = after_connect s.
Proof.
  intros Hstale. unfold _connect, bind at 1, gets at 1. rewrite Hstale.
  unfold calm, after_connect, connect_events. clear Hstale.
  destruct s as [[lg h u pw vh ex ty rk params c0 ch0] [env cs chs fs tr]].
  run.
  destruct fs as [|[] [|[] [|[] fs]]];
    run; rewrite ?lookup_fresh; run; rewrite ?lookup_fresh; run;
    intros H; try discriminate H;
    injection H as <-; rewrite <- ?app_assoc; split; reflexivity.
Qed.

(** [publish] is its connection check followed by the hand-over. *)
Lemma publish_unfold msg headers s :
  publish json_dumps msg headers s =
  bind (if no_open_conn s then _connect else ret tt)
       (fun _ => hand_over json_dumps msg headers) s.
Proof. reflexivity. Qed.

Lemma hand_over_run msg headers s ch text :
  _channel (self s) = Some ch ->
  BlockingChannel.is_open (world s) ch = true ->
  calm 1 (world s) ->
  json_dumps msg = Some text ->
  hand_over json_dumps msg headers s =
    (Ok tt, after_publish ch text headers s).
Proof.
  unfold hand_over, calm, after_publish, publish_events.
  rewrite headers_or_empty_default.
  destruct s as [[lg h u pw vh ex ty rk params c0 ch0] [env cs chs fs tr]].
  cbn [self world _channel faults]. intros -> Hopen Hcalm ->.
  unfold BlockingChannel.is_open, BlockingConnection.is_open in Hopen.
  cbn [chans conns] in Hopen. run.
  destruct (chs !! ch) as [[c [|]]|]; try discriminate Hopen.
  destruct (cs !! c) as [[|]|]; try discriminate Hopen.
  destruct fs as [|[] fs]; cbn in Hcalm; try discriminate Hcalm;
    run; rewrite <- ?app_assoc; reflexivity.
Qed.


(** *** After a successful connect sequence *)

Lemma after_connect_conn_open s :
  BlockingConnection.is_open (world (after_connect s))
    (length (conns (world s))) = true.
Proof.
  unfold BlockingConnection.is_open, after_connect. cbn [world conns].
  now rewrite lookup_fresh.
Qed.

Lemma after_connect_chan_open s :
  BlockingChannel.is_open (world (after_connect s))
    (length (chans (world s))) = true.
Proof.
  unfold BlockingChannel.is_open, BlockingConnection.is_open, after_connect.
  cbn [world conns chans]. now rewrite !lookup_fresh.
Qed.

Lemma after_connect_connected s : connected (after_connect s).
Proof.
  exists (length (conns (world s))). split; [reflexivity|].
  apply after_connect_conn_open.
Qed.

Lemma after_connect_channel_live s : channel_live (after_connect s).
Proof.
  exists (length (chans (world s))). split; [reflexivity|].
  apply after_connect_chan_open.
Qed.

Lemma no_faults_split (n m : nat) (fs : list bool) :
  no_faults (n + m) fs = no_faults n fs && no_faults m (drop n fs).
Proof.
  revert fs. induction n as [|n IH]; intros fs; cbn [Nat.add no_faults].
  - now rewrite drop_0.
  - destruct fs as [|f fs]; cbn [drop].
    + now destruct m.
    + rewrite IH. now rewrite andb_assoc.
Qed.

(** *** [publish], forwards *)

Lemma publish_connected msg headers s :
  connected s ->
  publish json_dumps msg headers s = hand_over json_dumps msg headers s.
Proof.
  intros H. apply connected_iff in H. rewrite publish_unfold, H.
  reflexivity.
Qed.

Lemma publish_stale_run msg headers s text :
  ~ connected s -> calm 4 (world s) -> json_dumps msg = Some text ->
  publish json_dumps msg headers s =
    (Ok tt, after_publish (length (chans (world s))) text headers
              (after_connect s)).
Proof.
  intros Hstale Hcalm Htext. apply not_connected_iff in Hstale.
  unfold calm in Hcalm. change 4 with (3 + 1) in Hcalm.
  rewrite no_faults_split in Hcalm. apply andb_true_iff in Hcalm as [H3 H1].
  rewrite publish_unfold, Hstale.
  erewrite bind_ok by (apply connect_run; assumption).
  apply hand_over_run; try assumption.
  - reflexivity.
  - apply after_connect_chan_open.
Qed.

(** *** [publish], backwards: what a normal return tells *)


(** *** Footprints: what each method can touch, whatever happens *)

Lemma connect_stale_footprint s :
  no_open_conn s = true ->
  exists n,
    1 <= n /\
    trace (world (snd (_connect s))) =
      trace (world s) ++
      take n (connect_events (self s) (length (conns (world s)))
                (length (chans (world s)))) /\
    settings (self (snd (_connect s))) = settings (self s) /\
    environ (world (snd (_connect s))) = environ (world s).
Proof.
  unfold connect_events, settings.
  destruct s as [[lg h u pw vh ex ty rk params c0 ch0] [env cs chs fs tr]].
  run. intros Hstale.
  assert (Hguard : match c0 with
                   | Some c =>
                       if match cs !! c with
                          | Some b => b
                          | None => false
                          end
                       then false else true
                   | None => true
                   end = true) by exact Hstale.
  rewrite Hguard. clear Hstale Hguard.
  destruct fs as [|[] [|[] [|[] fs]]];
    run; rewrite ?lookup_fresh; run; rewrite ?lookup_fresh; run;
    rewrite <- ?app_assoc;
    first [ exists 1; split; [lia|]; repeat split; reflexivity
          | exists 2; split; [lia|]; repeat split; reflexivity
          | exists 3; split; [lia|]; repeat split; reflexivity
          | exists 4; split; [lia|]; repeat split; reflexivity ].
Qed.

Lemma connect_footprint s :
  exists n,
    trace (world (snd (_connect s))) =
      trace (world s) ++
      take n (connect_events (self s) (length (conns (world s)))
                (length (chans (world s)))) /\
    settings (self (snd (_connect s))) = settings (self s) /\
    environ (world (snd (_connect s))) = environ (world s).
Proof.
  destruct (no_open_conn s) eqn:Hstale.
  - destruct (connect_stale_footprint s Hstale) as (n & _ & H).
    exists n. exact H.
  - rewrite connect_noop by assumption. exists 0.
    cbn [snd take]. now rewrite app_nil_r.
Qed.

Lemma hand_over_footprint msg headers s :
  exists m ch text,
    trace (world (snd (hand_over json_dumps msg headers s))) =
      trace (world s) ++ take m (publish_events (self s) ch text headers) /\
    (m <> 0 -> _channel (self s) = Some ch /\ json_dumps msg = Some text) /\
    self (snd (hand_over json_dumps msg headers s)) = self s /\
    conns (world (snd (hand_over json_dumps msg headers s))) =
      conns (world s) /\
    chans (world (snd (hand_over json_dumps msg headers s))) =
      chans (world s) /\
    environ (world (snd (hand_over json_dumps msg headers s))) =
      environ (world s).
Proof.
  unfold hand_over, publish_events. rewrite headers_or_empty_default.
  destruct s as [[lg h u pw vh ex ty rk params c0 ch0] [env cs chs fs tr]].
  destruct ch0 as [ch|];
    [|exists 0, 0, ""; run; cbn [take]; rewrite app_nil_r;
      repeat split; congruence].
  destruct (json_dumps msg) as [text|] eqn:Etext;
    [|exists 0, 0, ""; run; cbn [take]; rewrite app_nil_r;
      repeat split; congruence].
  exists (match chs !! ch with
          | Some (c, true) =>
              match cs !! c with
              | Some true => match fs with true :: _ => 1 | _ => 2 end
              | _ => 1
              end
          | _ => 1
          end), ch, text.
  run.
  destruct (chs !! ch) as [[c [|]]|]; run;
    try (repeat split; reflexivity).
  destruct (cs !! c) as [[|]|]; run; try (repeat split; reflexivity).
  destruct fs as [|[] fs]; run; rewrite <- ?app_assoc;
    repeat split; reflexivity.
Qed.

Lemma close_footprint s :
  self (snd (close s)) = self s /\
  chans (world (snd (close s))) = chans (world s) /\
  environ (world (snd (close s))) = environ (world s) /\
  exists evs,
    trace (world (snd (close s))) = trace (world s) ++ evs /\
    connection_attempts evs = 0.
Proof.
  destruct s as [[lg h u pw vh ex ty rk params c0 ch0] [env cs chs fs tr]].
  assert (Hsame : forall t : list (Event HVal),
             exists evs, t = t ++ evs /\ connection_attempts evs = 0)
    by (intros t; exists []; now rewrite app_nil_r).
  destruct c0 as [c|]; run;
    [|split; [|split; [|split]]; try reflexivity; apply Hsame].
  destruct (cs !! c) as [[|]|] eqn:E; run; rewrite ?E; run;
    try (split; [|split; [|split]]; try reflexivity; apply Hsame).
  destruct fs as [|[] fs]; run;
    (split; [|split; [|split]]; try reflexivity);
    eexists; split; reflexivity.
Qed.

(** *** [close] *)

Lemma close_noop s : ~ connected s -> close s = (Ok tt, s).
Proof.
  intros H. apply not_connected_iff in H. revert H.
  unfold no_open_conn, BlockingConnection.is_closed, close, bind, get.
  destruct (_conn (self s)) as [c|]; [|reflexivity].
  destruct (BlockingConnection.is_open (world s) c);
    [discriminate|reflexivity].
Qed.

Lemma close_run s c :
  _conn (self s) = Some c ->
  BlockingConnection.is_open (world s) c = true ->
  calm 1 (world s) ->
  close s = (Ok tt, after_close c s).
Proof.
  unfold calm, after_close, BlockingConnection.is_open.
  destruct s as [[lg h u pw vh ex ty rk params c0 ch0] [env cs chs fs tr]].
  cbn [self world _conn conns faults]. intros -> Hopen Hcalm. run.
  destruct (cs !! c) as [[|]|] eqn:E; try discriminate Hopen.
  run. rewrite E.
  destruct fs as [|[] fs]; cbn in Hcalm; try discriminate Hcalm;
    reflexivity.
Qed.

Lemma close_ok_inv s s' :
  close s = (Ok tt, s') ->
  (~ connected s /\ s' = s) \/
  (exists c, _conn (self s) = Some c /\
             BlockingConnection.is_open (world s) c = true /\
             calm 1 (world s) /\ s' = after_close c s).
Proof.
  destruct (no_open_conn s) eqn:Hstale.
  - apply not_connected_iff in Hstale. rewrite close_noop by assumption.
    intros [= <-]. left. split; [assumption|reflexivity].
  - apply connected_iff in Hstale as (c & Hc & Hopen).
    intros H. right. exists c. split; [assumption|].
    split; [assumption|]. revert Hc Hopen H.
    unfold calm, after_close, BlockingConnection.is_open.
    destruct s as [[lg h u pw vh ex ty rk params c0 ch0] [env cs chs fs tr]].
    cbn [self world _conn conns faults]. intros -> Hopen. run.
    destruct (cs !! c) as [[|]|] eqn:E; try discriminate Hopen.
    run. rewrite E.
    destruct fs as [|[] fs]; run; intros H; try discriminate H;
      injection H as <-; split; reflexivity.
Qed.

Lemma after_close_closed s c :
  BlockingConnection.is_open (world (after_close c s)) c = false.
Proof.
  unfold BlockingConnection.is_open, after_close. cbn [world conns].
  destruct (decide (c < length (conns (world s)))) as [Hlt|Hge].
  - now rewrite list_lookup_insert_eq.
  - rewrite lookup_ge_None_2; [reflexivity|]. rewrite length_insert. lia.
Qed.

Lemma after_close_not_connected s c :
  _conn (self s) = Some c -> ~ connected (after_close c s).
Proof.
  intros Hc (c' & Hc' & Hopen). cbn [after_close self] in Hc'.
  rewrite Hc in Hc'. injection Hc' as <-.
  now rewrite after_close_closed in Hopen.
Qed.

(** *** The footprint of [publish] *)

Lemma publish_events_settings (p q : Publisher) ch text
    (headers : option (gmap string HVal)) :
  settings p = settings q ->
  publish_events p ch text headers = publish_events q ch text headers.
Proof.
  destruct p, q. unfold settings, publish_events.
  cbn [set__conn set__channel _logger HOST USER PASS VIRTUAL_HOST EXCHANGE
       TYPE ROUTING_KEY _params _conn _channel].
  intros H. injection H as ?. subst. reflexivity.
Qed.

Lemma publish_footprint msg headers s :
  exists n m ch text,
    trace (world (snd (publish json_dumps msg headers s))) =
      trace (world s) ++
      take n (connect_events (self s) (length (conns (world s)))
                (length (chans (world s)))) ++
      take m (publish_events (self s) ch text headers) /\
    (m <> 0 -> json_dumps msg = Some text) /\
    (connected s ->
       n = 0 /\ self (snd (publish json_dumps msg headers s)) = self s /\
       (m <> 0 -> _channel (self s) = Some ch)) /\
    (~ connected s -> 1 <= n) /\
    settings (self (snd (publish json_dumps msg headers s))) =
      settings (self s) /\
    environ (world (snd (publish json_dumps msg headers s))) =
      environ (world s).
Proof.
  rewrite publish_unfold. unfold bind at 1 2 3 4.
  destruct (no_open_conn s) eqn:Hstale.
  - destruct (connect_stale_footprint s Hstale)
      as (n & Hn & Htrace & Hset & Henv).
    assert (Hnc : ~ connected s) by now apply not_connected_iff.
    destruct (_connect s) as [[[]|e] s1]; cbn [snd] in *.
    + destruct (hand_over_footprint msg headers s1)
        as (m & ch & text & Ht & Hm & Hself & _ & _ & Henv').
      exists n, m, ch, text. rewrite Ht, Htrace, <- app_assoc, Hself.
      rewrite (publish_events_settings _ _ _ _ _ Hset), Henv', Henv.
      repeat split; tauto.
    + exists n, 0, 0, "". cbn [take]. rewrite app_nil_r.
      repeat split; try tauto; congruence.
  - assert (Hc : connected s) by now apply connected_iff.
    cbn [ret].
    destruct (hand_over_footprint msg headers s)
      as (m & ch & text & Ht & Hm & Hself & _ & _ & Henv').
    exists 0, m, ch, text. cbn [take app]. rewrite Ht, Hself, Henv'.
    repeat split; try tauto; try (intros; now apply Hm).
Qed.

(** ** The claims about [_connect] and [close] *)

(** C5.  [_connect] is idempotent.  With a connection that exists and is
    open it changes nothing: no connection, no channel, no declaration, no
    log line.  Otherwise, the broker answering, it opens a connection,
    opens a channel on it, declares the configured exchange with the
    configured type as durable, and logs; the new connection and channel
    are stored and live, and a second call changes nothing. *)
Theorem connect_idempotent (s : @St HVal) :
  (connected s -> _connect s = (Ok tt, s)) /\
  (~ connected s -> calm 3 (world s) ->
   exists s',
     _connect s = (Ok tt, s') /\
     trace (world s') =
       trace (world s) ++
       [ EvBlockingConnection (_params (self s));
         EvChannel (length (conns (world s)));
         EvExchangeDeclare (length (chans (world s))) (EXCHANGE (self s))
           (TYPE (self s)) true;
         EvLogInfo (_logger (self s))
           ("connected to broker " +:+ HOST (self s) +:+ " vhost="
            +:+ VIRTUAL_HOST (self s)) ] /\
     _conn (self s') = Some (length (conns (world s))) /\
     _channel (self s') = Some (length (chans (world s))) /\
     chans (world s') !! length (chans (world s)) =
       Some (length (conns (world s)), true) /\
     connected s' /\ channel_live s' /\
     _connect s' = (Ok tt, s')).
Proof.
  split.
  - intros H. apply connect_noop. now apply connected_iff.
  - intros Hstale Hcalm. apply not_connected_iff in Hstale.
    exists (after_connect s). split; [now apply connect_run|].
    split; [reflexivity|]. split; [reflexivity|]. split; [reflexivity|].
    split; [apply lookup_fresh|].
    split; [apply after_connect_connected|].
    split; [apply after_connect_channel_live|].
    apply connect_noop, connected_iff, after_connect_connected.
Qed.

(** C8.  [close] on an open connection closes it (one [conn.close()]
    call, the broker answering); on a publisher that never connected, or
    whose connection is already closed, it returns normally and changes
    nothing. *)
Theorem close_closes_or_noop (s : @St HVal) :
  (forall c, _conn (self s) = Some c ->
             BlockingConnection.is_open (world s) c = true ->
             calm 1 (world s) ->
             exists s',
               close s = (Ok tt, s') /\
               BlockingConnection.is_open (world s') c = false /\
               BlockingConnection.is_closed (world s') c = true /\
               trace (world s') = trace (world s) ++ [EvClose c] /\
               self s' = self s) /\
  (_conn (self s) = None -> close s = (Ok tt, s)) /\
  (forall c, _conn (self s) = Some c ->
             BlockingConnection.is_open (world s) c = false ->
             close s = (Ok tt, s)).
Proof.
  split; [|split].
  - intros c Hc Hopen Hcalm. exists (after_close c s).
    split; [now apply close_run|].
    unfold BlockingConnection.is_closed. rewrite after_close_closed.
    repeat split; reflexivity.
  - intros Hnone. apply close_noop. intros (c & Hc & _). congruence.
  - intros c Hc Hclosed. apply close_noop. intros (c' & Hc' & Hopen).
    congruence.
Qed.

(** ** Reading traces *)

Lemma connection_attempts_app (a b : list (Event HVal)) :
  connection_attempts (a ++ b) =
  connection_attempts a + connection_attempts b.
Proof.
  unfold connection_attempts. now rewrite List.filter_app, length_app.
Qed.

Lemma connect_events_attempts p c ch :
  connection_attempts (@connect_events HVal p c ch) = 1.
Proof. reflexivity. Qed.

Lemma publish_prefix_attempts p ch text
    (headers : option (gmap string HVal)) m :
  connection_attempts (take m (publish_events p ch text headers)) = 0.
Proof. destruct m as [|[|[|m]]]; reflexivity. Qed.

Lemma publish_prefix_no_connect p ch text
    (headers : option (gmap string HVal)) m :
  forallb (fun e => negb (is_connect_call e))
    (take m (publish_events p ch text headers)) = true.
Proof. destruct m as [|[|[|m]]]; reflexivity. Qed.

Lemma connect_prefix_no_publish p c ch n :
  forallb (fun e => negb (is_basic_publish e))
    (take n (@connect_events HVal p c ch)) = true.
Proof. destruct n as [|[|[|[|[|n]]]]]; reflexivity. Qed.

Lemma connect_prefix_head p c ch n :
  1 <= n ->
  exists rest,
    take n (@connect_events HVal p c ch) =
    EvBlockingConnection (_params p) :: rest.
Proof.
  intros Hn. destruct n as [|n]; [lia|]. cbn [connect_events take].
  eexists. reflexivity.
Qed.

(** A hand-over found in a stretch of events of [publish] carries the
    configured exchange and routing key, the encoded text, the headers,
    and goes to channel [ch]. *)
Lemma basic_publish_in_prefix p c0 ch0 n m ch text
    (headers : option (gmap string HVal)) ch' ex rk body props :
  EvBasicPublish ch' ex rk body props
    ∈ take n (connect_events p c0 ch0)
      ++ take m (publish_events p ch text headers) ->
  m <> 0 /\ ch' = ch /\ ex = EXCHANGE p /\ rk = ROUTING_KEY p /\
  body = encode text /\ Pika.headers props = default ∅ headers.
Proof.
  rewrite elem_of_app. intros [Hin|Hin].
  - apply subseteq_take in Hin. unfold connect_events in Hin.
    rewrite !elem_of_cons, elem_of_nil in Hin.
    destruct Hin as [H|[H|[H|[H|[]]]]]; discriminate H.
  - split; [intros ->; cbn [take] in Hin; now apply elem_of_nil in Hin|].
    apply subseteq_take in Hin. unfold publish_events in Hin.
    rewrite !elem_of_cons, elem_of_nil in Hin.
    destruct Hin as [H|[H|[]]]; [|discriminate H].
    injection H as -> -> -> -> ->. repeat split; reflexivity.
Qed.

Lemma run_pair {S A : Type} (m : M S A) (st : S) :
  m st = (fst (m st), snd (m st)).
Proof. now destruct (m st). Qed.

(** [publish] returns normally when the broker answers and the message
    can be serialized, provided the connection is down (it is then
    re-established) or the stored channel is live. *)
Lemma publish_succeeds msg headers s :
  ~ connected s \/ channel_live s ->
  calm 4 (world s) -> is_Some (json_dumps msg) ->
  fst (publish json_dumps msg headers s) = Ok tt.
Proof.
  intros Hs Hcalm [text Htext].
  destruct (no_open_conn s) eqn:Hstale.
  - apply not_connected_iff in Hstale.
    now rewrite (publish_stale_run _ _ _ _ Hstale Hcalm Htext).
  - apply connected_iff in Hstale.
    destruct Hs as [Hs|(ch & Hch & Hopen)]; [contradiction|].
    rewrite publish_connected by assumption.
    erewrite hand_over_run; eauto.
    unfold calm in *. change 4 with (1 + 3) in Hcalm.
    rewrite no_faults_split in Hcalm.
    now apply andb_true_iff in Hcalm as [H1 _].
Qed.

(** ** The claims about [publish] *)


(** Once the connection check is passed, a serializable message is
    handed to the stored channel whatever the state of that channel: the
    library raises on a channel that is not open, and on an open one the
    call goes to the broker. *)
Lemma hand_over_calls_basic_publish msg headers s ch text :
  _channel (self s) = Some ch -> json_dumps msg = Some text ->
  exists rest,
    trace (world (snd (hand_over json_dumps msg headers s))) =
      trace (world s) ++
      EvBasicPublish ch (EXCHANGE (self s)) (ROUTING_KEY (self s))
        (encode text) {| Pika.headers := default ∅ headers |} :: rest /\
    (BlockingChannel.is_open (world s) ch = false ->
     rest = [] /\
     fst (hand_over json_dumps msg headers s) =
       Raise ChannelWrongStateError) /\
    (BlockingChannel.is_open (world s) ch = true -> calm 1 (world s) ->
     rest = [EvLogInfo (_logger (self s)) "message sent to queue"] /\
     fst (hand_over json_dumps msg headers s) = Ok tt).
Proof.
  unfold hand_over, calm, BlockingChannel.is_open,
    BlockingConnection.is_open.
  rewrite headers_or_empty_default.
  destruct s as [[lg h u pw vh ex ty rk params c0 ch0] [env cs chs fs tr]].
  cbn [self world _channel]. intros -> Hj. rewrite Hj. run.
  destruct (chs !! ch) as [[c [|]]|];
    [destruct (cs !! c) as [[|]|]; [destruct fs as [|[] fs]|..]|..];
    run; eexists;
    (split; [rewrite <- ?app_assoc; reflexivity|]);
    split; intros; cbn in *; try discriminate; split; reflexivity.
Qed.

(** C2 (amended).  [publish] checks the connection only.
    - With no connection, or a closed one, it runs the connect sequence
      first.  If that fails nothing is handed to the broker.  If it
      succeeds, a new connection and a new channel are stored, both live,
      and a serializable message is handed to that new channel; the
      broker answering, [publish] returns normally.
    - With an open connection it does not reconnect: no connection or
      channel is opened, and a serializable message is handed to the
      stored channel whatever the state of that channel, which is not
      looked at: on a channel that is not open the call to
      [basic_publish] is made and raises, on an open one (the broker
      answering) [publish] returns normally. *)
Theorem publish_checks_connection_only (msg : Msg)
    (headers : option (gmap string HVal)) (s : @St HVal) :
  (~ connected s ->
   (calm 4 (world s) -> is_Some (json_dumps msg) ->
    fst (publish json_dumps msg headers s) = Ok tt) /\
   ((exists e,
       _connect s = (Raise e, snd (publish json_dumps msg headers s)) /\
       fst (publish json_dumps msg headers s) = Raise e /\
       exists evs,
         trace (world (snd (publish json_dumps msg headers s))) =
           trace (world s) ++ evs /\
         forallb (fun e => negb (is_basic_publish e)) evs = true)
    \/
    (exists s1 m text,
       _connect s = (Ok tt, s1) /\
       trace (world s1) =
         trace (world s) ++
         connect_events (self s) (length (conns (world s)))
           (length (chans (world s))) /\
       _conn (self s1) = Some (length (conns (world s))) /\
       _channel (self s1) = Some (length (chans (world s))) /\
       connected s1 /\ channel_live s1 /\
       trace (world (snd (publish json_dumps msg headers s))) =
         trace (world s1) ++
         take m (publish_events (self s) (length (chans (world s))) text
                   headers) /\
       (forall text',
          json_dumps msg = Some text' ->
          exists rest,
            trace (world (snd (publish json_dumps msg headers s))) =
              trace (world s1) ++
              EvBasicPublish (length (chans (world s))) (EXCHANGE (self s))
                (ROUTING_KEY (self s)) (encode text')
                {| Pika.headers := default ∅ headers |} :: rest)))) /\
  (connected s ->
   self (snd (publish json_dumps msg headers s)) = self s /\
   conns (world (snd (publish json_dumps msg headers s))) =
     conns (world s) /\
   chans (world (snd (publish json_dumps msg headers s))) =
     chans (world s) /\
   exists evs,
     trace (world (snd (publish json_dumps msg headers s))) =
       trace (world s) ++ evs /\
     forallb (fun e => negb (is_connect_call e)) evs = true /\
     (forall ch ex rk body props,
        EvBasicPublish ch ex rk body props ∈ evs ->
        _channel (self s) = Some ch) /\
     (forall ch text,
        _channel (self s) = Some ch -> json_dumps msg = Some text ->
        exists rest,
          evs =
            EvBasicPublish ch (EXCHANGE (self s)) (ROUTING_KEY (self s))
              (encode text) {| Pika.headers := default ∅ headers |}
            :: rest /\
          (BlockingChannel.is_open (world s) ch = false ->
           rest = [] /\
           fst (publish json_dumps msg headers s) =
             Raise ChannelWrongStateError) /\
          (BlockingChannel.is_open (world s) ch = true ->
           calm 1 (world s) ->
           rest = [EvLogInfo (_logger (self s)) "message sent to queue"] /\
           fst (publish json_dumps msg headers s) = Ok tt))).
Proof.
  split.
  - intros Hnc. split.
    { intros Hcalm Hjson. apply publish_succeeds; auto. }
    pose proof Hnc as Hstale. apply not_connected_iff in Hstale.
    rewrite publish_unfold, Hstale. unfold bind.
    destruct (connect_stale_footprint s Hstale) as (n & _ & Htr & _).
    destruct (_connect s) as [[[]|e] s1] eqn:Hconn; cbn [snd] in Htr.
    + right. apply connect_ok_inv in Hconn as [H3 ->]; [|assumption].
      destruct (hand_over_footprint msg headers (after_connect s))
        as (m & ch & text & Ht & Hm & _).
      exists (after_connect s), m, text.
      split; [reflexivity|]. split; [reflexivity|].
      split; [reflexivity|]. split; [reflexivity|].
      split; [apply after_connect_connected|].
      split; [apply after_connect_channel_live|].
      split.
      * rewrite Ht. f_equal. destruct m as [|m]; [reflexivity|].
        destruct Hm as [Hch _]; [discriminate|]. injection Hch as <-.
        reflexivity.
      * intros text' Hj.
        destruct (hand_over_calls_basic_publish msg headers
                    (after_connect s) (length (chans (world s))) text'
                    eq_refl Hj) as (rest & Hhead & _).
        exists rest. exact Hhead.
    + left. exists e. cbn [fst snd]. split; [reflexivity|].
      split; [reflexivity|]. eexists. split; [exact Htr|].
      apply connect_prefix_no_publish.
  - intros Hc. rewrite publish_connected by assumption.
    destruct (hand_over_footprint msg headers s)
      as (m & ch & text & Ht & Hm & Hself & Hconns & Hchans & _).
    split; [assumption|]. split; [assumption|]. split; [assumption|].
    eexists. split; [exact Ht|]. split; [|split].
    + apply publish_prefix_no_connect.
    + intros ch' ex rk body props Hin.
      apply (basic_publish_in_prefix (self s) 0 0 0) in Hin
        as (Hm0 & -> & _).
      now apply Hm.
    + intros ch' text' Hch Hj.
      destruct (hand_over_calls_basic_publish msg headers s ch' text'
                  Hch Hj) as (rest & Hhead & Hdead & Hlive).
      exists rest. split; [|split; assumption].
      rewrite Hhead in Ht. now apply app_inv_head in Ht.
Qed.

Lemma hand_over_unserializable msg headers s :
  json_dumps msg = None -> is_Some (_channel (self s)) ->
  hand_over json_dumps msg headers s = (Raise JsonError, s).
Proof.
  destruct s as [[lg h u pw vh ex ty rk params c0 ch0] w].
  cbn [self _channel]. intros Hj [ch ->]. unfold hand_over. run.
  rewrite Hj. reflexivity.
Qed.

Lemma connect_prefix_attempts p c ch n :
  connection_attempts (take n (@connect_events HVal p c ch)) <= 1.
Proof. destruct n as [|[|[|[|[|n]]]]]; cbn; lia. Qed.



(** ** The claims about construction and the connection parameters *)

Lemma settings_params (p q : Publisher) :
  settings p = settings q -> _params p = _params q.
Proof. intros H. apply (f_equal _params) in H. exact H. Qed.

(** C6 (amended).  With the three required variables set to non-empty
    values construction succeeds and leaves the world as it found it: no
    call to the broker, no log line.  The new object holds no connection
    and no channel; a [close] at that point does nothing, and it is the
    first [publish] that opens the connection, with the parameters built
    by the constructor. *)
Theorem init_ok_without_io (logger : Logger) (w : World HVal)
    (h u p : string) :
  environ w !! "AMQP_HOST" = Some h ->
  environ w !! "AMQP_USER" = Some u ->
  environ w !! "AMQP_PASS" = Some p ->
  h <> "" -> u <> "" -> p <> "" ->
  exists pub,
    __init__ logger w = (Ok pub, w) /\
    _conn pub = None /\ _channel pub = None /\
    HOST pub = h /\ USER pub = u /\ PASS pub = p /\
    close (mkSt pub w) = (Ok tt, mkSt pub w) /\
    forall (msg : Msg) (headers : option (gmap string HVal)),
    exists rest,
      trace (world (snd (publish json_dumps msg headers (mkSt pub w)))) =
      trace w ++ EvBlockingConnection (_params pub) :: rest.
Proof.
  intros Hh Hu Hp Hhe Hue Hpe.
  exists (built logger (environ w) h u p).
  split.
  { rewrite init_unfold.
    assert (Hnil : missing_vars (environ w) = []).
    { apply missing_vars_nil. exists h, u, p. tauto. }
    now rewrite Hnil, Hh, Hu, Hp. }
  do 5 (split; [reflexivity|]).
  set (s := mkSt (built logger (environ w) h u p) w).
  assert (Hnc : ~ connected s) by (intros (c & Hc & _); discriminate Hc).
  split; [now apply close_noop|].
  intros msg headers.
  destruct (publish_footprint msg headers s)
    as (n & m & ch & text & Htrace & _ & _ & Hn & _).
  destruct (connect_prefix_head (self s) (length (conns (world s)))
              (length (chans (world s))) n (Hn Hnc)) as (rest & Hrest).
  rewrite Htrace, Hrest. eexists. reflexivity.
Qed.

(** C10.  The heartbeat and the blocked-connection timeout of the
    connection parameters are 30 whatever the environment holds, and the
    parameters built by the constructor are left as they are by
    [_connect], [publish] and [close], however these end. *)
Theorem params_fixed :
  (forall (logger : Logger) (w w' : World HVal) (pub : Publisher),
     __init__ logger w = (Ok pub, w') ->
     Pika.heartbeat (_params pub) = 30%Z /\
     Pika.blocked_connection_timeout (_params pub) = 30%Z) /\
  (forall s : @St HVal, _params (self (snd (_connect s))) = _params (self s)) /\
  (forall (msg : Msg) (headers : option (gmap string HVal)) (s : @St HVal),
     _params (self (snd (publish json_dumps msg headers s))) =
     _params (self s)) /\
  (forall s : @St HVal, _params (self (snd (close s))) = _params (self s)).
Proof.
  split; [|split; [|split]].
  - intros logger w w' pub. rewrite init_unfold.
    destruct (missing_vars (environ w)); [|discriminate].
    destruct (environ w !! "AMQP_HOST") as [h|]; [|discriminate].
    destruct (environ w !! "AMQP_USER") as [u|]; [|discriminate].
    destruct (environ w !! "AMQP_PASS") as [p|]; [|discriminate].
    intros [= <- <-]. split; reflexivity.
  - intros s. destruct (connect_footprint s) as (n & _ & Hset & _).
    now apply settings_params.
  - intros msg headers s.
    destruct (publish_footprint msg headers s)
      as (n & m & ch & text & _ & _ & _ & _ & Hset & _).
    now apply settings_params.
  - intros s. destruct (close_footprint s) as (Hself & _).
    now rewrite Hself.
Qed.

End Execution.

(** * Concrete runs: counterexamples and instances *)

Lemma s_fresh_constructed :
  __init__ 7 (fresh_world env_full) = (Ok (self s_fresh), world s_fresh).
Proof. vm_compute. reflexivity. Qed.

Lemma s_published_ok :
  fst (publish payload_dumps (PInt 1) None s_fresh) = Ok tt.
Proof. vm_compute. reflexivity. Qed.

(** C1, as stated, fails.  With [AMQP_HOST] not set and [AMQP_USER] set to
    the empty string the only absent required name is [AMQP_HOST], yet the
    error lists [AMQP_HOST] and [AMQP_USER]. *)
Lemma init_lists_more_than_absent :
  absent_vars env_user_empty = ["AMQP_HOST"] /\
  fst (__init__ 7 (fresh_world env_user_empty)) =
    Raise (RuntimeError "Missing RabbitMQ env vars: AMQP_HOST, AMQP_USER") /\
  fst (__init__ 7 (fresh_world env_user_empty)) <>
    Raise (RuntimeError (missing_message (absent_vars env_user_empty))).
Proof.
  split; [vm_compute; reflexivity|].
  split; [vm_compute; reflexivity|].
  vm_compute. discriminate.
Qed.

(** C6, as stated, fails.  All three required variables are set, one of
    them to the empty string, and construction raises. *)
Lemma init_rejects_empty_host :
  env_host_empty !! "AMQP_HOST" = Some "" /\
  env_host_empty !! "AMQP_USER" = Some "guest" /\
  env_host_empty !! "AMQP_PASS" = Some "secret" /\
  __init__ 7 (fresh_world env_host_empty) =
    (Raise (RuntimeError "Missing RabbitMQ env vars: AMQP_HOST"),
     fresh_world env_host_empty).
Proof. repeat split; vm_compute; reflexivity. Qed.

(** C2, as stated, fails.  A publisher was constructed and published one
    message; the broker then closed its channel while the connection
    stayed open.  The next [publish] opens no connection and no channel:
    it hands the message to the closed channel, and the library raises. *)
Lemma publish_on_closed_channel_does_not_reconnect :
  _conn (self s_channel_closed) = Some 0 /\
  BlockingConnection.is_open (world s_channel_closed) 0 = true /\
  _channel (self s_channel_closed) = Some 0 /\
  BlockingChannel.is_open (world s_channel_closed) 0 = false /\
  publish payload_dumps (PInt 2) None s_channel_closed =
    (Raise ChannelWrongStateError,
     mkSt (self s_channel_closed)
       (record_event
          (EvBasicPublish 0 "robot-shop" "orders" (encode "2")
             {| Pika.headers := ∅ |})
          (world s_channel_closed))).
Proof. repeat split; vm_compute; reflexivity. Qed.


(** ** Instances of the theorems *)

Lemma init_reports_missing_witness :
  __init__ 7 (fresh_world env_user_empty) =
    (Raise (RuntimeError "Missing RabbitMQ env vars: AMQP_HOST, AMQP_USER"),
     fresh_world env_user_empty).
Proof.
  destruct (init_reports_missing 7 (fresh_world env_user_empty))
    as (names & Hnames & Hrun & _).
  { exists "AMQP_HOST". split; [repeat constructor|left; reflexivity]. }
  rewrite Hrun, Hnames. vm_compute. reflexivity.
Defined.

Lemma init_empty_counts_as_missing_witness :
  exists names,
    __init__ 7 (fresh_world env_user_empty) =
      (Raise (RuntimeError ("Missing RabbitMQ env vars: " +:+ join ", " names)),
       fresh_world env_user_empty) /\
    "AMQP_USER" ∈ names.
Proof.
  destruct (init_empty_counts_as_missing 7 (fresh_world env_user_empty)
              "AMQP_USER") as (names & Hrun & Hin & _).
  - repeat constructor.
  - reflexivity.
  - exists names. split; [exact Hrun|exact Hin].
Defined.

Lemma init_optional_defaults_witness :
  VIRTUAL_HOST (built 7 env_custom "rabbitmq" "guest" "secret") = "shop" /\
  EXCHANGE (built 7 env_custom "rabbitmq" "guest" "secret") = "" /\
  TYPE (built 7 env_custom "rabbitmq" "guest" "secret") = "direct" /\
  ROUTING_KEY (built 7 env_custom "rabbitmq" "guest" "secret") = "orders".
Proof.
  destruct (init_optional_defaults 7 (fresh_world env_custom)
              (fresh_world env_custom)
              (built 7 env_custom "rabbitmq" "guest" "secret"))
    as ((_ & Hv) & (_ & He) & (Ht & _) & (Hr & _) & _).
  { vm_compute. reflexivity. }
  split; [apply Hv; reflexivity|].
  split; [apply He; reflexivity|].
  split; [apply Ht; reflexivity|apply Hr; reflexivity].
Defined.

Lemma connect_idempotent_witness :
  _connect s_published = (Ok tt, s_published) /\
  exists s', _connect s_fresh = (Ok tt, s') /\ connected s' /\
             _connect s' = (Ok tt, s').
Proof.
  split.
  - apply (proj1 (connect_idempotent s_published)).
    exists 0. split; vm_compute; reflexivity.
  - destruct (proj2 (connect_idempotent s_fresh))
      as (s' & Hrun & _ & _ & _ & _ & Hc & _ & Hagain).
    + intros (c & Hc & _). discriminate Hc.
    + reflexivity.
    + exists s'. split; [exact Hrun|]. split; [exact Hc|exact Hagain].
Defined.

Lemma close_closes_or_noop_witness :
  (exists s', close s_published = (Ok tt, s') /\
              BlockingConnection.is_open (world s') 0 = false) /\
  close s_fresh = (Ok tt, s_fresh) /\
  close s_connection_lost = (Ok tt, s_connection_lost).
Proof.
  split; [|split].
  - destruct (proj1 (close_closes_or_noop s_published) 0)
      as (s' & Hrun & Hclosed & _).
    + reflexivity.
    + vm_compute. reflexivity.
    + reflexivity.
    + exists s'. split; [exact Hrun|exact Hclosed].
  - apply (proj1 (proj2 (close_closes_or_noop s_fresh))). reflexivity.
  - apply (proj2 (proj2 (close_closes_or_noop s_connection_lost)) 0).
    + reflexivity.
    + vm_compute. reflexivity.
Defined.


Lemma publish_checks_connection_only_witness :
  fst (publish payload_dumps (PInt 2) None s_connection_lost) = Ok tt /\
  self (snd (publish payload_dumps (PInt 2) None s_channel_closed)) =
    self s_channel_closed /\
  fst (publish payload_dumps (PInt 2) None s_channel_closed) =
    Raise ChannelWrongStateError /\
  fst (publish payload_dumps (PInt 2) None s_published) = Ok tt.
Proof.
  split; [|split; [|split]].
  - destruct (proj1 (publish_checks_connection_only payload_dumps (PInt 2)
                       None s_connection_lost)) as (Hgo & _).
    + intros (c & Hc & Hopen). injection Hc as <-.
      vm_compute in Hopen. discriminate Hopen.
    + apply Hgo; [reflexivity|]. eexists. reflexivity.
  - destruct (proj2 (publish_checks_connection_only payload_dumps (PInt 2)
                       None s_channel_closed)) as (Hself & _).
    + exists 0. split; vm_compute; reflexivity.
    + exact Hself.
  - destruct (proj2 (publish_checks_connection_only payload_dumps (PInt 2)
                       None s_channel_closed))
      as (_ & _ & _ & evs & _ & _ & _ & Hhand).
    + exists 0. split; vm_compute; reflexivity.
    + destruct (Hhand 0 "2" eq_refl eq_refl) as (rest & _ & Hdead & _).
      apply Hdead. vm_compute. reflexivity.
  - destruct (proj2 (publish_checks_connection_only payload_dumps (PInt 2)
                       None s_published))
      as (_ & _ & _ & evs & _ & _ & _ & Hhand).
    + exists 0. split; vm_compute; reflexivity.
    + destruct (Hhand 0 "2" eq_refl eq_refl) as (rest & _ & _ & Hlive).
      apply Hlive; [vm_compute; reflexivity|reflexivity].
Defined.


Lemma init_ok_without_io_witness :
  exists pub,
    __init__ 7 (fresh_world env_full) = (Ok pub, fresh_world env_full) /\
    _conn pub = None /\ _channel pub = None.
Proof.
  destruct (init_ok_without_io payload_dumps 7 (fresh_world env_full)
              "rabbitmq" "guest" "secret")
    as (pub & Hrun & Hconn & Hchan & _);
    try reflexivity; try discriminate.
  exists pub. split; [exact Hrun|]. split; [exact Hconn|exact Hchan].
Defined.

Lemma params_fixed_witness :
  Pika.heartbeat (_params (self s_fresh)) = 30%Z /\
  Pika.blocked_connection_timeout (_params (self s_fresh)) = 30%Z.
Proof.
  apply (proj1 (params_fixed payload_dumps) 7 (fresh_world env_full)
           (fresh_world env_full) (self s_fresh)).
  vm_compute. reflexivity.
Defined.

(** ** A further run

    A connect sequence that fails after the connection was opened leaves
    an open connection without a channel.  The next [publish] finds the
    connection open, does not reconnect, and fails on the missing
    channel. *)
Lemma publish_after_half_connect :
  let s : @St string :=
    mkSt (self s_fresh) (mkWorld env_full [] [] [false; true] []) in
  let s1 := snd (publish payload_dumps (PInt 1) None s) in
  fst (publish payload_dumps (PInt 1) None s) = Raise AMQPError /\
  _conn (self s1) = Some 0 /\
  _channel (self s1) = None /\
  BlockingConnection.is_open (world s1) 0 = true /\
  publish payload_dumps (PInt 2) None s1 = (Raise AttributeError, s1).
Proof. repeat split; vm_compute; reflexivity. Qed.

(** * Further properties of the publisher *)

Section Further.
Context {Msg HVal : Type}.
Variable json_dumps : Msg -> option string.
Implicit Types (w : World HVal) (s : @St HVal).

Ltac run :=
  cbv [_connect publish close hand_over no_open_conn
       BlockingConnection.new BlockingConnection.channel
       BlockingConnection.close BlockingConnection.is_open
       BlockingConnection.is_closed BlockingChannel.exchange_declare
       BlockingChannel.basic_publish BlockingChannel.is_open Logging.info
       bind gets get modify lift assign deref ret raise next_fault
       world self conns chans faults trace environ set_conns set_chans
       record_event with_environ st_with_environ
       _conn _channel _params _logger HOST USER PASS
       VIRTUAL_HOST EXCHANGE TYPE ROUTING_KEY set__conn set__channel
       fst snd negb andb].

(** ** Construction *)

(** X1.  Construction succeeds exactly when the three required variables
    are set to non-empty values.  It then stores their values, hands the
    host, the virtual host and the credentials (user, then password) to
    the connection parameters, and otherwise raises the configuration
    error and nothing else.  Either way the world is left untouched. *)
Theorem init_succeeds_iff (logger : Logger) (w : World HVal) :
  ((exists pub, __init__ logger w = (Ok pub, w)) <->
   (exists h u p,
      environ w !! "AMQP_HOST" = Some h /\
      environ w !! "AMQP_USER" = Some u /\
      environ w !! "AMQP_PASS" = Some p /\
      h <> "" /\ u <> "" /\ p <> "")) /\
  (forall pub w',
     __init__ logger w = (Ok pub, w') ->
     w' = w /\
     environ w !! "AMQP_HOST" = Some (HOST pub) /\
     environ w !! "AMQP_USER" = Some (USER pub) /\
     environ w !! "AMQP_PASS" = Some (PASS pub) /\
     _logger pub = logger /\
     Pika.host (_params pub) = HOST pub /\
     Pika.virtual_host (_params pub) = VIRTUAL_HOST pub /\
     Pika.username (Pika.credentials (_params pub)) = USER pub /\
     Pika.password (Pika.credentials (_params pub)) = PASS pub) /\
  (forall e w',
     __init__ logger w = (Raise e, w') ->
     w' = w /\
     exists n names,
       e = RuntimeError
             ("Missing RabbitMQ env vars: " +:+ join ", " (n :: names))).
Proof.
  rewrite init_unfold.
  destruct (missing_vars (environ w)) as [|n names] eqn:Hmiss.
  - apply missing_vars_nil in Hmiss
      as (h & u & p & Hh & Hu & Hp & Hhe & Hue & Hpe).
    rewrite Hh, Hu, Hp. split; [|split].
    + split; intros _; [exists h, u, p; tauto|eexists; reflexivity].
    + intros pub w' [= <- <-]. repeat split; reflexivity.
    + intros e w' [=].
  - split; [|split].
    + split; [intros (pub & [=])|].
      intros Hall. apply missing_vars_nil in Hall. congruence.
    + intros pub w' [=].
    + intros e w' [= <- <-]. split; [reflexivity|].
      exists n, names. reflexivity.
Qed.

(** ** No retry *)

Lemma connect_prefix_hand_overs p c ch n :
  hand_overs (take n (@connect_events HVal p c ch)) = 0.
Proof. destruct n as [|[|[|[|[|n]]]]]; reflexivity. Qed.

Lemma publish_prefix_hand_overs p ch text
    (headers : option (gmap string HVal)) m :
  hand_overs (take m (publish_events p ch text headers)) <= 1.
Proof. destruct m as [|[|[|m]]]; cbn; lia. Qed.

Lemma hand_overs_app (a b : list (Event HVal)) :
  hand_overs (a ++ b) = hand_overs a + hand_overs b.
Proof. unfold hand_overs. now rewrite List.filter_app, length_app. Qed.

(** X2.  One call of [publish], however it ends, tries to open at most
    one connection and hands at most one message to the broker: nothing is
    retried. *)
Theorem publish_never_retries (msg : Msg)
    (headers : option (gmap string HVal)) (s : @St HVal) :
  exists evs,
    trace (world (snd (publish json_dumps msg headers s))) =
      trace (world s) ++ evs /\
    connection_attempts evs <= 1 /\
    hand_overs evs <= 1 /\
    (connected s -> connection_attempts evs = 0).
Proof.
  destruct (publish_footprint json_dumps msg headers s)
    as (n & m & ch & text & Htrace & _ & Hc & _).
  eexists. split; [exact Htrace|].
  rewrite connection_attempts_app, publish_prefix_attempts, hand_overs_app,
    connect_prefix_hand_overs.
  pose proof (@connect_prefix_attempts HVal (self s)
                (length (conns (world s))) (length (chans (world s))) n).
  pose proof (publish_prefix_hand_overs (self s) ch text headers m).
  repeat split; try lia.
  intros Hcon. destruct (Hc Hcon) as [-> _]. reflexivity.
Qed.

(** ** [close] keeps the handles *)

(** X3.  [close] never clears the stored connection and channel.  After a
    [close] that returned normally no open connection is held, although
    the closed handle is still stored, and a second [close] does
    nothing. *)
Theorem close_keeps_handles_and_is_idempotent (s : @St HVal) :
  self (snd (close s)) = self s /\
  (fst (close s) = Ok tt ->
   ~ connected (snd (close s)) /\
   close (snd (close s)) = (Ok tt, snd (close s))).
Proof.
  split; [apply close_footprint|].
  intros Hok. pose proof (run_pair close s) as Hrun. rewrite Hok in Hrun.
  assert (Hnc : ~ connected (snd (close s))).
  { apply close_ok_inv in Hrun as [(Hnc & ->)|(c & Hc & _ & _ & ->)].
    - exact Hnc.
    - now apply after_close_not_connected. }
  split; [exact Hnc|]. now apply close_noop.
Qed.

(** ** Steps of [publish] that end in an exception *)


Lemma hand_over_dead_channel msg headers s ch text :
  _channel (self s) = Some ch ->
  BlockingChannel.is_open (world s) ch = false ->
  json_dumps msg = Some text ->
  hand_over json_dumps msg headers s =
    (Raise ChannelWrongStateError,
     mkSt (self s)
       (record_event
          (EvBasicPublish ch (EXCHANGE (self s)) (ROUTING_KEY (self s))
             (encode text) {| Pika.headers := default ∅ headers |})
          (world s))).
Proof.
  unfold BlockingChannel.is_open, BlockingConnection.is_open.
  destruct s as [[lg h u pw vh ex ty rk params c0 ch0] [env cs chs fs tr]].
  cbn [self world _channel chans conns]. intros -> Hopen Hj.
  unfold hand_over. rewrite headers_or_empty_default, Hj. run.
  destruct (chs !! ch) as [[c [|]]|]; try reflexivity.
  destruct (cs !! c) as [[|]|]; try discriminate Hopen; reflexivity.
Qed.

Lemma after_publish_connected ch text (headers : option (gmap string HVal))
    s :
  connected s -> connected (after_publish ch text headers s).
Proof. intros (c & Hc & Hopen). exists c. split; assumption. Qed.

Lemma after_publish_channel_live ch text
    (headers : option (gmap string HVal)) s :
  channel_live s -> channel_live (after_publish ch text headers s).
Proof. intros (c & Hc & Hopen). exists c. split; assumption. Qed.

(** X4.  A message that cannot be serialized makes [publish] raise the
    exception of [json.dumps] without handing anything to the broker.  The connection
    check comes first: a publisher that holds an open connection and a
    channel is left exactly as it was, while one without an open
    connection has by then run the whole connect sequence (the broker
    answering) and keeps the new connection and channel. *)
Theorem publish_unserializable (msg : Msg)
    (headers : option (gmap string HVal)) (s : @St HVal) :
  json_dumps msg = None ->
  (connected s -> is_Some (_channel (self s)) ->
   publish json_dumps msg headers s = (Raise JsonError, s)) /\
  (~ connected s -> calm 3 (world s) ->
   exists s',
     publish json_dumps msg headers s = (Raise JsonError, s') /\
     trace (world s') =
       trace (world s) ++
       connect_events (self s) (length (conns (world s)))
         (length (chans (world s))) /\
     _conn (self s') = Some (length (conns (world s))) /\
     _channel (self s') = Some (length (chans (world s))) /\
     connected s' /\ channel_live s').
Proof.
  intros Hj. split.
  - intros Hc Hch. rewrite publish_connected by assumption.
    now apply hand_over_unserializable.
  - intros Hnc Hcalm. apply not_connected_iff in Hnc.
    exists (after_connect s). split.
    + rewrite publish_unfold, Hnc.
      erewrite bind_ok by (apply connect_run; assumption).
      apply hand_over_unserializable; [assumption|].
      eexists. reflexivity.
    + split; [reflexivity|]. split; [reflexivity|]. split; [reflexivity|].
      split; [apply after_connect_connected
             |apply after_connect_channel_live].
Qed.

Lemma publish_dead_channel_step msg headers s ch :
  connected s -> _channel (self s) = Some ch ->
  BlockingChannel.is_open (world s) ch = false ->
  let s' := snd (publish json_dumps msg headers s) in
  (fst (publish json_dumps msg headers s) = Raise JsonError \/
   fst (publish json_dumps msg headers s) = Raise ChannelWrongStateError) /\
  self s' = self s /\ conns (world s') = conns (world s) /\
  chans (world s') = chans (world s).
Proof.
  intros Hc Hch Hdead. cbv zeta.
  rewrite publish_connected by assumption.
  destruct (json_dumps msg) as [text|] eqn:Hj.
  - rewrite (hand_over_dead_channel _ _ _ _ _ Hch Hdead Hj).
    cbn [fst snd]. split; [now right|]. repeat split; reflexivity.
  - rewrite hand_over_unserializable by (try assumption; eauto).
    cbn [fst snd]. split; [now left|]. repeat split; reflexivity.
Qed.

(** X5.  A channel closed while its connection stays open is never
    replaced by [publish].  With the connection open and the stored
    channel not open, [publish] of a serializable message opens nothing,
    calls [basic_publish] on that channel and raises
    [ChannelWrongStateError]; and after any number of further [publish]
    calls the publisher still holds the same connection and the same
    closed channel, no connection or channel having been opened. *)
Theorem publish_dead_channel_never_recovers (s : @St HVal)
    (ch : chan_handle) :
  connected s -> _channel (self s) = Some ch ->
  BlockingChannel.is_open (world s) ch = false ->
  (forall msg headers text,
     json_dumps msg = Some text ->
     publish json_dumps msg headers s =
       (Raise ChannelWrongStateError,
        mkSt (self s)
          (record_event
             (EvBasicPublish ch (EXCHANGE (self s)) (ROUTING_KEY (self s))
                (encode text) {| Pika.headers := default ∅ headers |})
             (world s)))) /\
  (forall batch : list (Msg * option (gmap string HVal)),
     let s' :=
       run_actions json_dumps
         (map (fun mh => DoPublish (fst mh) (snd mh)) batch) s in
     self s' = self s /\
     conns (world s') = conns (world s) /\
     chans (world s') = chans (world s) /\
     connected s' /\
     BlockingChannel.is_open (world s') ch = false).
Proof.
  intros Hc Hch Hdead. split.
  - intros msg headers text Hj. rewrite publish_connected by assumption.
    now apply hand_over_dead_channel.
  - intros batch. cbv zeta. revert s Hc Hch Hdead.
    induction batch as [|[msg headers] batch IH]; intros s Hc Hch Hdead.
    + cbn. repeat split; assumption.
    + cbn [map run_actions fold_left step fst snd].
      destruct (publish_dead_channel_step msg headers s ch Hc Hch Hdead)
        as (_ & Hself & Hconns & Hchans).
      set (s1 := snd (publish json_dumps msg headers s)) in *.
      assert (Hc1 : connected s1).
      { destruct Hc as (c & Hcc & Hopen). exists c.
        unfold BlockingConnection.is_open in *.
        rewrite Hself, Hconns. split; assumption. }
      assert (Hch1 : _channel (self s1) = Some ch) by now rewrite Hself.
      assert (Hdead1 : BlockingChannel.is_open (world s1) ch = false).
      { unfold BlockingChannel.is_open, BlockingConnection.is_open in *.
        now rewrite Hchans, Hconns. }
      destruct (IH s1 Hc1 Hch1 Hdead1) as (H1 & H2 & H3 & H4 & H5).
      fold (run_actions json_dumps
              (map (fun mh => DoPublish (fst mh) (snd mh)) batch) s1).
      rewrite H1, H2, H3, Hself, Hconns, Hchans.
      repeat split; assumption.
Qed.

(** ** A connect sequence cut short *)



(** ** A connection dropped by the broker *)

Lemma dropped_not_connected s c :
  _conn (self s) = Some c ->
  ~ connected (mkSt (self s) (broker_drops_connection c (world s))).
Proof.
  intros Hc (c' & Hc' & Hopen). cbn [self] in Hc'.
  rewrite Hc in Hc'. injection Hc' as <-. revert Hopen.
  unfold BlockingConnection.is_open, broker_drops_connection, set_conns.
  cbn [world conns].
  destruct (decide (c < length (conns (world s)))) as [Hlt|Hge].
  - now rewrite list_lookup_insert_eq.
  - rewrite lookup_ge_None_2; [discriminate|]. rewrite length_insert. lia.
Qed.

Lemma hand_over_fault msg headers s ch text fs :
  _channel (self s) = Some ch ->
  BlockingChannel.is_open (world s) ch = true ->
  faults (world s) = true :: fs ->
  json_dumps msg = Some text ->
  hand_over json_dumps msg headers s =
    (Raise AMQPError,
     mkSt (self s)
       (mkWorld (environ (world s)) (conns (world s)) (chans (world s)) fs
          (trace (world s) ++
           [ EvBasicPublish ch (EXCHANGE (self s)) (ROUTING_KEY (self s))
               (encode text) {| Pika.headers := default ∅ headers |} ]))).
Proof.
  unfold BlockingChannel.is_open, BlockingConnection.is_open.
  destruct s as [[lg h u pw vh ex ty rk params c0 ch0] [env cs chs fs0 tr]].
  cbn [self world _channel chans conns faults]. intros -> Hopen -> Hj.
  unfold hand_over. rewrite headers_or_empty_default, Hj. run.
  destruct (chs !! ch) as [[c [|]]|]; try discriminate Hopen.
  destruct (cs !! c) as [[|]|]; try discriminate Hopen. reflexivity.
Qed.

(** X7.  A connection lost while a message is published costs that
    message.  The [publish] whose [basic_publish] call fails raises after
    that single call: it neither reconnects nor sends again.  Once the
    connection is seen closed, the next [publish] (the broker answering)
    runs exactly one connect sequence on new handles, hands over its own
    message only, and returns normally with the new connection and
    channel stored and live. *)
Theorem publish_recovers_after_lost_connection (m1 m2 : Msg)
    (h1 h2 : option (gmap string HVal)) (s : @St HVal) (c : conn_handle)
    (ch : chan_handle) (t1 t2 : string) (fs : list bool) :
  _conn (self s) = Some c ->
  BlockingConnection.is_open (world s) c = true ->
  _channel (self s) = Some ch ->
  BlockingChannel.is_open (world s) ch = true ->
  faults (world s) = true :: fs -> no_faults 4 fs = true ->
  json_dumps m1 = Some t1 -> json_dumps m2 = Some t2 ->
  exists s1 s2,
    publish json_dumps m1 h1 s = (Raise AMQPError, s1) /\
    self s1 = self s /\
    trace (world s1) =
      trace (world s) ++
      [ EvBasicPublish ch (EXCHANGE (self s)) (ROUTING_KEY (self s))
          (encode t1) {| Pika.headers := default ∅ h1 |} ] /\
    publish json_dumps m2 h2
      (mkSt (self s1) (broker_drops_connection c (world s1))) =
      (Ok tt, s2) /\
    trace (world s2) =
      trace (world s1) ++
      connect_events (self s) (length (conns (world s)))
        (length (chans (world s))) ++
      publish_events (self s) (length (chans (world s))) t2 h2 /\
    _conn (self s2) = Some (length (conns (world s))) /\
    _channel (self s2) = Some (length (chans (world s))) /\
    connected s2 /\ channel_live s2.
Proof.
  intros Hc Hopen Hch Hlive Hf Hcalm Hj1 Hj2.
  assert (Hcon : connected s) by (exists c; split; assumption).
  set (s1 := mkSt (self s)
               (mkWorld (environ (world s)) (conns (world s))
                  (chans (world s)) fs
                  (trace (world s) ++
                   [ EvBasicPublish ch (EXCHANGE (self s))
                       (ROUTING_KEY (self s)) (encode t1)
                       {| Pika.headers := default ∅ h1 |} ]))).
  set (s0 := mkSt (self s1) (broker_drops_connection c (world s1))).
  assert (Hnc : ~ connected s0) by now apply dropped_not_connected.
  exists s1. eexists.
  split.
  { rewrite publish_connected by assumption.
    now apply hand_over_fault. }
  split; [reflexivity|]. split; [reflexivity|].
  split.
  { apply publish_stale_run; [exact Hnc|exact Hcalm|exact Hj2]. }
  cbn [after_publish after_connect s0 s1 broker_drops_connection set_conns
       world self trace conns chans _conn _channel set__conn set__channel].
  rewrite length_insert, <- app_assoc.
  split; [reflexivity|]. split; [reflexivity|]. split; [reflexivity|].
  split.
  - apply after_publish_connected.
    pose proof (after_connect_connected s0) as H. exact H.
  - apply after_publish_channel_live.
    pose proof (after_connect_channel_live s0) as H. exact H.
Qed.

(** ** The environment is read by the constructor only *)

Lemma connect_environ env s :
  _connect (st_with_environ env s) =
  (fst (_connect s), st_with_environ env (snd (_connect s))).
Proof.
  destruct s as [[lg h u pw vh ex ty rk params c0 ch0] [en cs chs fs tr]].
  run.
  destruct c0 as [c|];
    [destruct (cs !! c) as [[|]|] eqn:E; run; try reflexivity|];
    destruct fs as [|[] [|[] [|[] fs]]];
    run; rewrite ?lookup_fresh; run; rewrite ?lookup_fresh; run;
    reflexivity.
Qed.

Lemma hand_over_environ env msg headers s :
  hand_over json_dumps msg headers (st_with_environ env s) =
  (fst (hand_over json_dumps msg headers s),
   st_with_environ env (snd (hand_over json_dumps msg headers s))).
Proof.
  destruct s as [[lg h u pw vh ex ty rk params c0 ch0] [en cs chs fs tr]].
  run.
  destruct ch0 as [ch|]; [|reflexivity].
  destruct (json_dumps msg) as [text|]; [|reflexivity].
  destruct (chs !! ch) as [[c [|]]|]; try reflexivity.
  destruct (cs !! c) as [[|]|]; try reflexivity.
  destruct fs as [|[] fs]; reflexivity.
Qed.

Lemma close_environ env s :
  close (st_with_environ env s) =
  (fst (close s), st_with_environ env (snd (close s))).
Proof.
  destruct s as [[lg h u pw vh ex ty rk params c0 ch0] [en cs chs fs tr]].
  run.
  destruct c0 as [c|]; [|reflexivity].
  destruct (cs !! c) as [[|]|] eqn:E; run; rewrite ?E; run;
    try reflexivity.
  destruct fs as [|[] fs]; reflexivity.
Qed.

(** X8.  The methods never look at the process environment: whatever it
    has become since construction, [_connect], [publish] and [close]
    return the same outcome, store the same handles, touch the broker in
    the same way and leave the environment as it is. *)
Theorem methods_ignore_environ (env : gmap string string) (msg : Msg)
    (headers : option (gmap string HVal)) (s : @St HVal) :
  _connect (st_with_environ env s) =
    (fst (_connect s), st_with_environ env (snd (_connect s))) /\
  publish json_dumps msg headers (st_with_environ env s) =
    (fst (publish json_dumps msg headers s),
     st_with_environ env (snd (publish json_dumps msg headers s))) /\
  close (st_with_environ env s) =
    (fst (close s), st_with_environ env (snd (close s))).
Proof.
  split; [apply connect_environ|]. split; [|apply close_environ].
  rewrite !publish_unfold.
  assert (Hg : no_open_conn (st_with_environ env s) = no_open_conn s)
    by reflexivity.
  rewrite Hg. unfold bind.
  destruct (no_open_conn s).
  - rewrite connect_environ.
    destruct (_connect s) as [[[]|e] s1]; cbn [fst snd];
      [apply hand_over_environ|reflexivity].
  - cbn [ret]. apply hand_over_environ.
Qed.

(** ** No connection is left open behind *)

Lemma connect_conns s :
  no_open_conn s = true ->
  (self (snd (_connect s)) = self s /\
   conns (world (snd (_connect s))) = conns (world s)) \/
  (conns (world (snd (_connect s))) = conns (world s) ++ [true] /\
   _conn (self (snd (_connect s))) = Some (length (conns (world s)))).
Proof.
  destruct s as [[lg h u pw vh ex ty rk params c0 ch0] [env cs chs fs tr]].
  run. intros Hstale.
  assert (Hguard : match c0 with
                   | Some c =>
                       if match cs !! c with
                          | Some b => b
                          | None => false
                          end
                       then false else true
                   | None => true
                   end = true) by exact Hstale.
  rewrite Hguard. clear Hstale Hguard.
  destruct fs as [|[] [|[] [|[] fs]]];
    run; rewrite ?lookup_fresh; run; rewrite ?lookup_fresh; run;
    first [ left; split; reflexivity | right; split; reflexivity ].
Qed.

Lemma close_conns s :
  conns (world (snd (close s))) = conns (world s) \/
  exists c, conns (world (snd (close s))) = <[c := false]> (conns (world s)).
Proof.
  destruct s as [[lg h u pw vh ex ty rk params c0 ch0] [env cs chs fs tr]].
  run.
  destruct c0 as [c|]; [|now left].
  destruct (cs !! c) as [[|]|] eqn:E; run; rewrite ?E; run;
    try (now left).
  destruct fs as [|[] fs]; run; [right|left|right];
    try reflexivity; exists c; reflexivity.
Qed.

Lemma open_after_closing (cs : list bool) (c c' : conn_handle) :
  <[c := false]> cs !! c' = Some true -> cs !! c' = Some true.
Proof.
  destruct (decide (c = c')) as [<-|Hne].
  - destruct (decide (c < length cs)) as [Hlt|Hge].
    + now rewrite list_lookup_insert_eq.
    + now rewrite list_insert_ge by lia.
  - now rewrite list_lookup_insert_ne.
Qed.

Lemma is_open_true w c :
  BlockingConnection.is_open w c = true <-> conns w !! c = Some true.
Proof.
  unfold BlockingConnection.is_open.
  destruct (conns w !! c) as [[|]|]; intuition congruence.
Qed.

Lemma step_keeps_no_stray (a : action Msg HVal) s :
  no_stray_connection s -> no_stray_connection (step json_dumps a s).
Proof.
  intros Hinv. destruct a as [msg headers| |ch|c0]; cbn [step].
  - (* publish *)
    rewrite publish_unfold. unfold bind.
    assert (Hho : forall s1 : @St HVal,
               no_stray_connection s1 ->
               no_stray_connection
                 (snd (hand_over json_dumps msg headers s1))).
    { intros s1 H1 c Hopen.
      destruct (hand_over_footprint json_dumps msg headers s1)
        as (m & ch & text & _ & _ & Hself & Hconns & _).
      rewrite Hself. apply H1. apply is_open_true.
      apply is_open_true in Hopen. now rewrite <- Hconns. }
    destruct (no_open_conn s) eqn:Hstale; [|now apply Hho].
    assert (Hc1 : no_stray_connection (snd (_connect s))).
    { intros c Hopen. apply is_open_true in Hopen.
      destruct (connect_conns s Hstale)
        as [[Hself Hconns]|[Hconns Hnew]].
      - rewrite Hself. apply Hinv, is_open_true. now rewrite <- Hconns.
      - rewrite Hconns in Hopen. rewrite Hnew.
        destruct (decide (c < length (conns (world s)))) as [Hlt|Hge].
        + exfalso. rewrite lookup_app_l in Hopen by assumption.
          apply is_open_true in Hopen. pose proof (Hinv c Hopen) as Hc.
          apply not_connected_iff in Hstale. apply Hstale.
          exists c. split; assumption.
        + apply lookup_lt_Some in Hopen. rewrite length_app in Hopen.
          cbn [length] in Hopen. f_equal. lia. }
    destruct (_connect s) as [[[]|e] s1]; cbn [snd] in *;
      [now apply Hho|exact Hc1].
  - (* close *)
    intros c Hopen. apply is_open_true in Hopen.
    destruct (close_footprint s) as (Hself & _). rewrite Hself.
    apply Hinv, is_open_true.
    destruct (close_conns s) as [Hconns|(c1 & Hconns)];
      rewrite Hconns in Hopen; [assumption|].
    now apply open_after_closing in Hopen.
  - (* the broker closes a channel *)
    intros c Hopen. cbn [self]. apply Hinv.
    revert Hopen. unfold BlockingConnection.is_open, broker_closes_channel.
    cbn [world]. now destruct (chans (world s) !! ch) as [[c1 up]|].
  - (* the broker drops a connection *)
    intros c Hopen. cbn [self]. apply Hinv, is_open_true.
    apply is_open_true in Hopen. now apply open_after_closing in Hopen.
Qed.

Lemma run_keeps_no_stray (l : list (action Msg HVal)) s :
  no_stray_connection s -> no_stray_connection (run_actions json_dumps l s).
Proof.
  revert s. induction l as [|a l IH]; intros s Hinv; [exact Hinv|].
  cbn [run_actions fold_left]. apply IH, step_keeps_no_stray, Hinv.
Qed.

(** X9.  No connection is leaked.  A publisher constructed in a world
    without open connections holds, after any sequence of [publish] and
    [close] calls, broker failures, closed channels and dropped
    connections, every connection that is still open: at most one is
    open at any time, and it is the stored one. *)
Theorem no_connection_leak (logger : Logger) (w w' : World HVal)
    (pub : Publisher) (l : list (action Msg HVal)) :
  (forall c, BlockingConnection.is_open w c = false) ->
  __init__ logger w = (Ok pub, w') ->
  let s := run_actions json_dumps l (mkSt pub w') in
  (forall c, BlockingConnection.is_open (world s) c = true ->
             _conn (self s) = Some c) /\
  (forall c1 c2,
     BlockingConnection.is_open (world s) c1 = true ->
     BlockingConnection.is_open (world s) c2 = true -> c1 = c2).
Proof.
  intros Hnone Hinit.
  assert (Hw : w' = w).
  { revert Hinit. rewrite init_unfold.
    destruct (missing_vars (environ w)); [|discriminate].
    destruct (environ w !! "AMQP_HOST"); [|discriminate].
    destruct (environ w !! "AMQP_USER"); [|discriminate].
    destruct (environ w !! "AMQP_PASS"); [|discriminate].
    now intros [= _ <-]. }
  subst w'. cbv zeta.
  assert (Hinv : no_stray_connection
                   (run_actions json_dumps l (mkSt pub w))).
  { apply run_keeps_no_stray. intros c Hopen. cbn [world] in Hopen.
    rewrite Hnone in Hopen. discriminate Hopen. }
  split; [exact Hinv|].
  intros c1 c2 H1 H2. apply Hinv in H1. apply Hinv in H2. congruence.
Qed.

(** ** Publishing a batch *)

Lemma batch_events_attempts p ch
    (batch : list (Msg * option (gmap string HVal))) :
  connection_attempts (batch_events json_dumps p ch batch) = 0.
Proof.
  induction batch as [|[msg headers] batch IH]; [reflexivity|].
  cbn [batch_events flat_map fst snd].
  rewrite connection_attempts_app.
  fold (batch_events json_dumps p ch batch). rewrite IH.
  now destruct (json_dumps msg).
Qed.

Lemma batch_events_hand_overs p ch
    (batch : list (Msg * option (gmap string HVal))) :
  Forall (fun mh => is_Some (json_dumps (fst mh))) batch ->
  hand_overs (batch_events json_dumps p ch batch) = length batch.
Proof.
  induction 1 as [|[msg headers] batch [text Hj] _ IH]; [reflexivity|].
  cbn [batch_events flat_map fst snd length] in *.
  rewrite hand_overs_app.
  fold (batch_events json_dumps p ch batch). rewrite IH, Hj. reflexivity.
Qed.

Lemma publish_each_live (batch : list (Msg * option (gmap string HVal))) :
  forall s ch,
    connected s -> _channel (self s) = Some ch ->
    BlockingChannel.is_open (world s) ch = true ->
    calm (length batch) (world s) ->
    Forall (fun mh => is_Some (json_dumps (fst mh))) batch ->
    exists s',
      publish_each json_dumps batch s = (Ok tt, s') /\
      trace (world s') =
        trace (world s) ++ batch_events json_dumps (self s) ch batch /\
      self s' = self s /\
      conns (world s') = conns (world s) /\
      chans (world s') = chans (world s).
Proof.
  induction batch as [|[msg headers] batch IH];
    intros s ch Hc Hch Hopen Hcalm Hall.
  - exists s. cbn [publish_each batch_events flat_map].
    rewrite app_nil_r. repeat split; reflexivity.
  - apply Forall_cons in Hall as [[text Hj] Hall].
    unfold calm in Hcalm. cbn [length] in Hcalm.
    change (S (length batch)) with (1 + length batch) in Hcalm.
    rewrite no_faults_split in Hcalm.
    apply andb_true_iff in Hcalm as [H1 Hn].
    cbn [fst] in Hj.
    assert (Hc1 : connected (after_publish ch text headers s))
      by now apply after_publish_connected.
    assert (Hcalm1 : calm (length batch)
                       (world (after_publish ch text headers s)))
      by exact Hn.
    destruct (IH (after_publish ch text headers s) ch Hc1 Hch Hopen Hcalm1
                Hall) as (s' & Hrun & Htr & Hself & Hconns & Hchans).
    assert (Hfirst : publish json_dumps msg headers s =
                     (Ok tt, after_publish ch text headers s)).
    { rewrite publish_connected by assumption.
      now apply hand_over_run. }
    exists s'. split.
    + cbn [publish_each]. rewrite (bind_ok _ _ _ _ _ Hfirst). exact Hrun.
    + rewrite Htr, Hself, Hconns, Hchans.
      cbn [after_publish world self trace conns chans batch_events
           flat_map fst snd].
      rewrite Hj, <- app_assoc. repeat split; reflexivity.
Qed.

(** X10.  A batch of serializable messages published one after the other
    to a broker that answers goes out in order on one channel.  A
    publisher holding a live connection and channel opens nothing; one
    without an open connection connects exactly once, before the first
    message.  Every message is handed over once. *)
Theorem publish_each_connects_once
    (batch : list (Msg * option (gmap string HVal))) (s : @St HVal) :
  Forall (fun mh => is_Some (json_dumps (fst mh))) batch ->
  (forall ch,
     connected s -> _channel (self s) = Some ch ->
     BlockingChannel.is_open (world s) ch = true ->
     calm (length batch) (world s) ->
     exists s',
       publish_each json_dumps batch s = (Ok tt, s') /\
       trace (world s') =
         trace (world s) ++ batch_events json_dumps (self s) ch batch /\
       self s' = self s) /\
  (~ connected s -> batch <> [] -> calm (3 + length batch) (world s) ->
   exists s',
     publish_each json_dumps batch s = (Ok tt, s') /\
     trace (world s') =
       trace (world s) ++
       connect_events (self s) (length (conns (world s)))
         (length (chans (world s))) ++
       batch_events json_dumps (self s) (length (chans (world s))) batch /\
     _conn (self s') = Some (length (conns (world s))) /\
     _channel (self s') = Some (length (chans (world s)))) /\
  (forall p c ch,
     connection_attempts
       (connect_events p c ch ++ batch_events json_dumps p ch batch) = 1 /\
     hand_overs
       (connect_events p c ch ++ batch_events json_dumps p ch batch) =
       length batch).
Proof.
  intros Hall. split; [|split].
  - intros ch Hc Hch Hopen Hcalm.
    destruct (publish_each_live batch s ch Hc Hch Hopen Hcalm Hall)
      as (s' & Hrun & Htr & Hself & _).
    exists s'. repeat split; assumption.
  - intros Hnc Hne Hcalm.
    destruct batch as [|[msg headers] batch]; [congruence|].
    apply Forall_cons in Hall as [[text Hj] Hall]. cbn [fst] in Hj.
    unfold calm in Hcalm. cbn [length] in Hcalm.
    replace (3 + S (length batch)) with (4 + length batch) in Hcalm by lia.
    rewrite no_faults_split in Hcalm.
    apply andb_true_iff in Hcalm as [H4 Hn].
    set (ch := length (chans (world s))).
    set (s1 := after_publish ch text headers (after_connect s)).
    assert (Hc1 : connected s1)
      by apply after_publish_connected, after_connect_connected.
    assert (Hch1 : _channel (self s1) = Some ch) by reflexivity.
    assert (Hopen1 : BlockingChannel.is_open (world s1) ch = true)
      by apply after_connect_chan_open.
    assert (Hcalm1 : calm (length batch) (world s1)).
    { unfold calm, s1. cbn [after_publish after_connect world faults].
      now rewrite drop_drop. }
    destruct (publish_each_live batch s1 ch Hc1 Hch1 Hopen1 Hcalm1 Hall)
      as (s' & Hrun & Htr & Hself & _).
    assert (Hfirst : publish json_dumps msg headers s = (Ok tt, s1))
      by now apply publish_stale_run.
    exists s'. split.
    + cbn [publish_each]. rewrite (bind_ok _ _ _ _ _ Hfirst). exact Hrun.
    + rewrite Htr, Hself. unfold s1.
      cbn [after_publish after_connect world self trace batch_events
           flat_map fst snd _conn _channel set__conn set__channel].
      rewrite Hj, <- !app_assoc. repeat split; reflexivity.
  - intros p c ch.
    rewrite connection_attempts_app, hand_overs_app, batch_events_attempts,
      batch_events_hand_overs by assumption.
    split; reflexivity.
Qed.

End Further.

(** ** Instances of the further properties *)

Lemma init_succeeds_iff_witness :
  exists pub, __init__ 7 (fresh_world env_full) = (Ok pub, fresh_world env_full).
Proof.
  apply (proj1 (init_succeeds_iff 7 (fresh_world env_full))).
  exists "rabbitmq", "guest", "secret".
  repeat split; try reflexivity; discriminate.
Defined.

Lemma close_keeps_handles_and_is_idempotent_witness :
  _conn (self (snd (close s_published))) = Some 0 /\
  ~ connected (snd (close s_published)) /\
  close (snd (close s_published)) = (Ok tt, snd (close s_published)).
Proof.
  destruct (close_keeps_handles_and_is_idempotent s_published)
    as (Hself & Hafter).
  split; [now rewrite Hself|].
  apply Hafter. vm_compute. reflexivity.
Defined.

Lemma publish_unserializable_witness :
  publish payload_dumps PObject None s_published =
    (Raise JsonError, s_published) /\
  exists s',
    publish payload_dumps PObject None s_fresh = (Raise JsonError, s') /\
    connected s'.
Proof.
  destruct (publish_unserializable payload_dumps PObject None s_published)
    as (Hkeep & _); [reflexivity|].
  destruct (publish_unserializable payload_dumps PObject None s_fresh)
    as (_ & Hconn); [reflexivity|].
  split.
  - apply Hkeep.
    + exists 0. split; vm_compute; reflexivity.
    + exists 0. vm_compute. reflexivity.
  - destruct Hconn as (s' & Hrun & _ & _ & _ & Hc & _).
    + intros (c & Hc & _). discriminate Hc.
    + reflexivity.
    + exists s'. split; [exact Hrun|exact Hc].
Defined.

Lemma publish_dead_channel_never_recovers_witness :
  fst (publish payload_dumps (PInt 2) None s_channel_closed) =
    Raise ChannelWrongStateError /\
  conns (world (run_actions payload_dumps
                  [DoPublish (PInt 3) None; DoPublish (PInt 4) None]
                  s_channel_closed)) =
    conns (world s_channel_closed).
Proof.
  destruct (publish_dead_channel_never_recovers payload_dumps
              s_channel_closed 0) as (Hone & Hmany).
  - exists 0. split; vm_compute; reflexivity.
  - vm_compute. reflexivity.
  - vm_compute. reflexivity.
  - split.
    + rewrite (Hone (PInt 2) None "2"); reflexivity.
    + apply (Hmany [(PInt 3, None); (PInt 4, None)]).
Defined.


Lemma publish_recovers_after_lost_connection_witness :
  exists s1 s2,
    publish payload_dumps (PInt 2) None s_lossy = (Raise AMQPError, s1) /\
    publish payload_dumps (PInt 3) None
      (mkSt (self s1) (broker_drops_connection 0 (world s1))) =
      (Ok tt, s2) /\
    _conn (self s2) = Some 1.
Proof.
  destruct (publish_recovers_after_lost_connection payload_dumps
              (PInt 2) (PInt 3) None None s_lossy 0 0 "2" "3" [])
    as (s1 & s2 & Hfail & _ & _ & Hnext & _ & Hconn & _);
    try (vm_compute; reflexivity).
  exists s1, s2. split; [exact Hfail|]. split; [exact Hnext|exact Hconn].
Defined.

Lemma no_connection_leak_witness :
  _conn (self (run_actions payload_dumps
                 [ DoPublish (PInt 1) None; BrokerDropsConnection 0;
                   DoPublish (PInt 2) None; BrokerClosesChannel 1;
                   DoPublish PObject None; DoClose;
                   DoPublish (PInt 3) None ]
                 s_fresh)) = Some 2.
Proof.
  apply (no_connection_leak payload_dumps 7 (fresh_world env_full)
           (fresh_world env_full) (self s_fresh)).
  - intros c. unfold BlockingConnection.is_open. cbn [fresh_world conns].
    now rewrite lookup_nil.
  - vm_compute. reflexivity.
  - vm_compute. reflexivity.
Defined.

Lemma publish_each_connects_once_witness :
  exists s',
    publish_each payload_dumps [(PInt 1, None); (PInt 2, None)] s_fresh =
      (Ok tt, s') /\
    _conn (self s') = Some 0 /\ _channel (self s') = Some 0.
Proof.
  destruct (publish_each_connects_once payload_dumps
              [(PInt 1, None); (PInt 2, None)] s_fresh) as (_ & Hstale & _).
  - repeat constructor; eexists; reflexivity.
  - destruct Hstale as (s' & Hrun & _ & Hconn & Hchan).
    + intros (c & Hc & _). discriminate Hc.
    + discriminate.
    + reflexivity.
    + exists s'. split; [exact Hrun|]. split; [exact Hconn|exact Hchan].
Defined.
